(** * A particle filter for vehicle localisation: model and properties

    Shallow embedding of [particle_filter.cpp].  The source file holds two
    revisions of the same class; they are embedded side by side as the
    modules [Rev1] (the first text, lines 1-305) and [Rev2] (the second
    text, lines 306-737).

    Numeric model.  A C++ [double] is modelled by a real number: rounding,
    infinities and NaN are left out, [M_PI] is [PI], and [sin], [cos],
    [exp], [sqrt] are the real functions.  Division is the total division
    of [R].  [int] and [size_t] values are [Z] and [nat].

    Randomness.  A random engine is modelled by the stream of values it
    delivers, passed as an argument: a stream of standard normal variates
    for [normal_distribution], and for [discrete_distribution] a sampler
    that maps the weight vector to the stream of drawn indices.

    Undefined behaviour (indexing a vector out of range, reading an
    uninitialised index) is modelled by [None]. *)

From Stdlib Require Import Reals List Lra Lia ZArith Bool.
From Stdlib Require Strings.String Strings.Ascii Numbers.DecimalString.
Import ListNotations.
Open Scope R_scope.

(** ** Data model *)

(** [struct Particle]. *)
Record Particle : Type := mkParticle
  { p_id : Z;
    p_x : R;
    p_y : R;
    p_theta : R;
    p_weight : R;
    p_associations : list Z;
    p_sense_x : list R;
    p_sense_y : list R }.

(** [struct LandmarkObs]. *)
Record LandmarkObs : Type := mkLandmarkObs
  { obs_id : Z;
    obs_x : R;
    obs_y : R }.

(** [struct Map::single_landmark_s]. *)
Record single_landmark_s : Type := mkLandmark
  { id_i : Z;
    x_f : R;
    y_f : R }.

(** [class Map]. *)
Record Map : Type := mkMap
  { landmark_list : list single_landmark_s }.

(** The data members of [class ParticleFilter]. *)
Record ParticleFilter : Type := mkFilter
  { num_particles : Z;
    is_initialized : bool;
    particles : list Particle }.

(** Assignments to a single member. *)
Definition set_x (p : Particle) (v : R) : Particle :=
  mkParticle (p_id p) v (p_y p) (p_theta p) (p_weight p)
             (p_associations p) (p_sense_x p) (p_sense_y p).

Definition set_y (p : Particle) (v : R) : Particle :=
  mkParticle (p_id p) (p_x p) v (p_theta p) (p_weight p)
             (p_associations p) (p_sense_x p) (p_sense_y p).

Definition set_theta (p : Particle) (v : R) : Particle :=
  mkParticle (p_id p) (p_x p) (p_y p) v (p_weight p)
             (p_associations p) (p_sense_x p) (p_sense_y p).

Definition set_weight (p : Particle) (v : R) : Particle :=
  mkParticle (p_id p) (p_x p) (p_y p) (p_theta p) v
             (p_associations p) (p_sense_x p) (p_sense_y p).

Definition set_associations (p : Particle) (v : list Z) : Particle :=
  mkParticle (p_id p) (p_x p) (p_y p) (p_theta p) (p_weight p)
             v (p_sense_x p) (p_sense_y p).

Definition set_sense_x (p : Particle) (v : list R) : Particle :=
  mkParticle (p_id p) (p_x p) (p_y p) (p_theta p) (p_weight p)
             (p_associations p) v (p_sense_y p).

Definition set_sense_y (p : Particle) (v : list R) : Particle :=
  mkParticle (p_id p) (p_x p) (p_y p) (p_theta p) (p_weight p)
             (p_associations p) (p_sense_x p) v.

Definition set_obs_x (o : LandmarkObs) (v : R) : LandmarkObs :=
  mkLandmarkObs (obs_id o) v (obs_y o).

Definition set_obs_y (o : LandmarkObs) (v : R) : LandmarkObs :=
  mkLandmarkObs (obs_id o) (obs_x o) v.

(** ** Library and header functions *)

(** The comparison [a <= b] on doubles, as a boolean. *)
Definition Rleb (a b : R) : bool := if Rle_dec a b then true else false.

(** The comparison [a > b] on doubles, as a boolean. *)
Definition Rgtb (a b : R) : bool := if Rgt_dec a b then true else false.

(** [DBL_MAX], the largest finite double. *)
Definition DBL_MAX : R := (2 - / 2 ^ 52) * 2 ^ 1023.

(** Modelled from the spec: [dist] is declared in [helper_functions.h],
    which is not part of the sources; it is the Euclidean distance between
    the points [(x1, y1)] and [(x2, y2)]. *)
Definition dist (x1 y1 x2 y2 : R) : R :=
  sqrt ((x2 - x1) * (x2 - x1) + (y2 - y1) * (y2 - y1)).

(** [normal_distribution<double> d(mean, sd); d(gen)]: the engine delivers
    the standard normal variate [z]. *)
Definition normal_distribution (mean sd z : R) : R := mean + sd * z.

(** Sum of a weight vector. *)
Definition sum_weights (ws : list R) : R := fold_right Rplus 0 ws.

(** [discrete_distribution] built from the weight vector [ws]: the
    probability of drawing index [i]. *)
Definition discrete_distribution (ws : list R) (i : nat) : R :=
  nth i ws 0 / sum_weights ws.

(** A sampler for the [discrete_distribution] built from [ws] only
    delivers indices that have positive probability. *)
Definition sampler_ok (sampler : list R -> nat -> nat) (ws : list R) : Prop :=
  forall k, 0 < discrete_distribution ws (sampler ws k).

(** Sequencing of steps that may be undefined. *)
Definition bind {A B : Type} (m : option A) (f : A -> option B) : option B :=
  match m with
  | Some a => f a
  | None => None
  end.

Notation "x <- m ;; k" := (bind m (fun x => k))
  (at level 61, m at next level, right associativity).

(** The bivariate Gaussian density evaluated by both revisions of
    [updateWeights]; [dx] and [dy] are the differences before squaring. *)
Definition multi_gaussian_term (std_x std_y dx dy : R) : R :=
  let var_x := std_x * std_x in
  let var_y := std_y * std_y in
  let sq_diff_x := dx * dx in
  let sq_diff_y := dy * dy in
  (1 / (2 * PI * std_x * std_y)) *
  exp (- (sq_diff_x / (2 * var_x) + sq_diff_y / (2 * var_y))).

(** ** Text output *)

Module Stream.
Import String.
Local Open Scope string_scope.

(** The line feed character. *)
Definition newline : string := String (Ascii.ascii_of_nat 10) EmptyString.

(** [operator<<] for an [int]: the decimal numeral, with a minus sign for
    a negative number. *)
Definition show_int (z : Z) : string :=
  DecimalString.NilZero.string_of_int (Z.to_int z).

(** [copy(v.begin(), v.end(), ostream_iterator<T>(ss, delim))] on a stream
    that holds [ss]: every element is written, followed by [delim]. *)
Fixpoint copy_to_stream {A : Type} (show : A -> string) (delim : string)
    (v : list A) (ss : string) : string :=
  match v with
  | [] => ss
  | a :: rest => copy_to_stream show delim rest (ss ++ show a ++ delim)
  end.

(** [n - 1] on a [size_t] (64 bits) value [n]: it wraps around to the
    largest value for [n = 0]. *)
Definition size_minus_one (n : N) : N :=
  if (n =? 0)%N then (2 ^ 64 - 1)%N else (n - 1)%N.

(** [s.substr(pos, count)]: the characters from [pos] on, at most [count]
    of them; [None] is the exception [out_of_range], raised when [pos]
    exceeds the length. *)
Definition substr (s : string) (pos count : N) : option string :=
  let size := N.of_nat (length s) in
  if (size <? pos)%N then None
  else Some (substring (N.to_nat pos) (N.to_nat (N.min count (size - pos))) s).

(** The files of the file system: the content stored under each name,
    [None] where there is no file. *)
Definition FileSystem : Type := string -> option string.

(** The file system with the content of [filename] replaced. *)
Definition store (fs : FileSystem) (filename : string)
    (content : option string) : FileSystem :=
  fun name => if String.eqb name filename then content else fs name.

End Stream.

(** ** First revision *)

Module Rev1.

(** One iteration of the loop of [init]. *)
Definition init_body (gen : nat -> R) (x y theta : R) (std : R * R * R)
    (ps : list Particle) (par_index : nat) : list Particle :=
  let '(std_x, std_y, std_theta) := std in
  let sample_x := normal_distribution x std_x (gen (3 * par_index)%nat) in
  let sample_y := normal_distribution y std_y (gen (3 * par_index + 1)%nat) in
  let sample_theta :=
    normal_distribution theta std_theta (gen (3 * par_index + 2)%nat) in
  let new_particle :=
    mkParticle (Z.of_nat par_index) sample_x sample_y sample_theta 1 [] [] [] in
  ps ++ [new_particle].

(** [ParticleFilter::init]. *)
Definition init (gen : nat -> R) (x y theta : R) (std : R * R * R)
    (pf : ParticleFilter) : ParticleFilter :=
  let num := 100%Z in
  mkFilter num true
    (fold_left (init_body gen x y theta std) (seq 0 (Z.to_nat num))
               (particles pf)).

(** One iteration of the loop of [prediction]; [zx], [zy], [zt] are the
    three variates the engine delivers in this iteration. *)
Definition prediction_body (delta_t : R) (std_pos : R * R * R)
    (velocity yaw_rate : R) (zx zy zt : R) (p : Particle) : Particle :=
  let '(std_x, std_y, std_theta) := std_pos in
  let prev_theta := p_theta p in
  let p :=
    if Rgtb (Rabs yaw_rate) 0.0001 then
      let p := set_x p (p_x p + (velocity / yaw_rate) *
                 (sin (prev_theta + yaw_rate * delta_t) - sin prev_theta)) in
      set_y p (p_y p + (velocity / yaw_rate) *
                 (cos prev_theta - cos (prev_theta + yaw_rate * delta_t)))
    else
      let p := set_x p (p_x p + velocity * delta_t * cos prev_theta) in
      set_y p (p_y p + velocity * delta_t * sin prev_theta) in
  let p := set_theta p (prev_theta + yaw_rate * delta_t) in
  let p := set_x p (p_x p + normal_distribution 0 std_x zx) in
  let p := set_y p (p_y p + normal_distribution 0 std_y zy) in
  set_theta p (p_theta p + normal_distribution 0 std_theta zt).

(** The loop of [prediction] from index [par_index] on. *)
Fixpoint prediction_loop (gen : nat -> R) (delta_t : R) (std_pos : R * R * R)
    (velocity yaw_rate : R) (par_index : nat) (ps : list Particle)
    : list Particle :=
  match ps with
  | [] => []
  | p :: rest =>
      prediction_body delta_t std_pos velocity yaw_rate
        (gen (3 * par_index)%nat) (gen (3 * par_index + 1)%nat)
        (gen (3 * par_index + 2)%nat) p
      :: prediction_loop gen delta_t std_pos velocity yaw_rate
           (S par_index) rest
  end.

(** [ParticleFilter::prediction]. *)
Definition prediction (gen : nat -> R) (delta_t : R) (std_pos : R * R * R)
    (velocity yaw_rate : R) (pf : ParticleFilter) : ParticleFilter :=
  mkFilter (num_particles pf) (is_initialized pf)
    (prediction_loop gen delta_t std_pos velocity yaw_rate 0 (particles pf)).

(** The loop of [dataAssociation] over the landmarks from index
    [land_index] on, with the current [minDistance] and
    [indexOfLandmark]. *)
Fixpoint dataAssociation_loop (sensor_range : R) (observation : LandmarkObs)
    (lms : list single_landmark_s) (land_index : nat) (minDistance : R)
    (indexOfLandmark : nat) : nat :=
  match lms with
  | [] => indexOfLandmark
  | lm :: rest =>
      let currentDistance :=
        dist (x_f lm) (y_f lm) (obs_x observation) (obs_y observation) in
      if Rleb currentDistance sensor_range then
        if Rleb currentDistance minDistance then
          dataAssociation_loop sensor_range observation rest (S land_index)
            currentDistance land_index
        else
          dataAssociation_loop sensor_range observation rest (S land_index)
            minDistance indexOfLandmark
      else
        dataAssociation_loop sensor_range observation rest (S land_index)
          minDistance indexOfLandmark
  end.

(** [ParticleFilter::dataAssociation]. *)
Definition dataAssociation (sensor_range : R) (landmarks : Map)
    (observation : LandmarkObs) : nat :=
  dataAssociation_loop sensor_range observation (landmark_list landmarks)
    0 DBL_MAX 0.

(** [ParticleFilter::convertVehicleToMapCoords]: the observation is passed
    by reference and assigned member by member; the result is its final
    value. *)
Definition convertVehicleToMapCoords (observation : LandmarkObs)
    (particle : Particle) : LandmarkObs :=
  let observation :=
    set_obs_x observation
      (p_x particle + obs_x observation * cos (p_theta particle)
                    - obs_y observation * sin (p_theta particle)) in
  let observation :=
    set_obs_y observation
      (p_y particle + obs_x observation * sin (p_theta particle)
                    + obs_y observation * cos (p_theta particle)) in
  observation.

(** The inner loop of [updateWeights]: the observations still to be
    processed for one particle. *)
Fixpoint updateWeights_obs (sensor_range : R) (std_landmark : R * R)
    (observations : list LandmarkObs) (map_landmarks : Map)
    (particle : Particle) : option Particle :=
  match observations with
  | [] => Some particle
  | o :: rest =>
      let current_obs := convertVehicleToMapCoords o particle in
      let land_index := dataAssociation sensor_range map_landmarks current_obs in
      lm <- nth_error (landmark_list map_landmarks) land_index ;;
      let std_x := fst std_landmark in
      let std_y := snd std_landmark in
      let multi_gaussian :=
        multi_gaussian_term std_x std_y
          (x_f lm - obs_x current_obs) (y_f lm - obs_y current_obs) in
      updateWeights_obs sensor_range std_landmark rest map_landmarks
        (set_weight particle (p_weight particle * multi_gaussian))
  end.

(** The outer loop of [updateWeights]. *)
Fixpoint updateWeights_loop (sensor_range : R) (std_landmark : R * R)
    (observations : list LandmarkObs) (map_landmarks : Map)
    (ps : list Particle) : option (list Particle) :=
  match ps with
  | [] => Some []
  | p :: rest =>
      p' <- updateWeights_obs sensor_range std_landmark observations
              map_landmarks p ;;
      rest' <- updateWeights_loop sensor_range std_landmark observations
                 map_landmarks rest ;;
      Some (p' :: rest')
  end.

(** [ParticleFilter::updateWeights]. *)
Definition updateWeights (sensor_range : R) (std_landmark : R * R)
    (observations : list LandmarkObs) (map_landmarks : Map)
    (pf : ParticleFilter) : option ParticleFilter :=
  ps <- updateWeights_loop sensor_range std_landmark observations
          map_landmarks (particles pf) ;;
  Some (mkFilter (num_particles pf) (is_initialized pf) ps).

(** The drawing loop of [resample]: draw number [par_index] and the
    following ones. *)
Fixpoint resample_loop (weights_dist : nat -> nat)
    (particlesCopy : list Particle) (par_index : nat) (count : nat)
    (ps : list Particle) : option (list Particle) :=
  match count with
  | O => Some ps
  | S count' =>
      p <- nth_error particlesCopy (weights_dist par_index) ;;
      resample_loop weights_dist particlesCopy (S par_index) count'
        (ps ++ [p])
  end.

(** [ParticleFilter::resample]. *)
Definition resample (sampler : list R -> nat -> nat) (pf : ParticleFilter)
    : option ParticleFilter :=
  let particlesCopy := particles pf in
  let weights := map p_weight particlesCopy in
  let weights_dist := sampler weights in
  ps <- resample_loop weights_dist particlesCopy 0 (length particlesCopy) [] ;;
  Some (mkFilter (num_particles pf) (is_initialized pf) ps).

(** The loop of [write]: [count] iterations from index [i] on, on a stream
    that holds [dataFile]; [show] is [operator<<] for a [double]. *)
Fixpoint write_loop (show : R -> String.string) (ps : list Particle)
    (i : nat) (count : nat) (dataFile : String.string)
    : option String.string :=
  match count with
  | O => Some dataFile
  | S count' =>
      p <- nth_error ps i ;;
      write_loop show ps (S i) count'
        (String.append dataFile
           (String.append (show (p_x p))
              (String.append (String.String (Ascii.ascii_of_nat 32)
                                String.EmptyString)
                 (String.append (show (p_y p))
                    (String.append (String.String (Ascii.ascii_of_nat 32)
                                      String.EmptyString)
                       (String.append (show (p_theta p))
                          Stream.newline))))))
  end.

(** [ParticleFilter::write]: the file is opened for appending. *)
Definition write (show : R -> String.string) (filename : String.string)
    (pf : ParticleFilter) (fs : Stream.FileSystem)
    : option Stream.FileSystem :=
  let opened :=
    match fs filename with
    | Some content => content
    | None => String.EmptyString
    end in
  dataFile <- write_loop show (particles pf) 0
                (Z.to_nat (num_particles pf)) opened ;;
  Some (Stream.store fs filename (Some dataFile)).

End Rev1.

(** ** Second revision *)

Module Rev2.

(** One iteration of the loop of [init]. *)
Definition init_body (gen : nat -> R) (x y theta : R) (std : R * R * R)
    (ps : list Particle) (par_index : nat) : list Particle :=
  let '(std_x, std_y, std_theta) := std in
  let sample_x := normal_distribution x std_x (gen (3 * par_index)%nat) in
  let sample_y := normal_distribution y std_y (gen (3 * par_index + 1)%nat) in
  let sample_theta :=
    normal_distribution theta std_theta (gen (3 * par_index + 2)%nat) in
  let new_particle :=
    mkParticle (Z.of_nat par_index) sample_x sample_y sample_theta 1 [] [] [] in
  ps ++ [new_particle].

(** [ParticleFilter::init]. *)
Definition init (gen : nat -> R) (x y theta : R) (std : R * R * R)
    (pf : ParticleFilter) : ParticleFilter :=
  let num := 200%Z in
  mkFilter num true
    (fold_left (init_body gen x y theta std) (seq 0 (Z.to_nat num))
               (particles pf)).

(** One iteration of the loop of [prediction]; [zx], [zy], [zt] are the
    three variates the engine delivers in this iteration. *)
Definition prediction_body (delta_t : R) (std_pos : R * R * R)
    (velocity yaw_rate : R) (zx zy zt : R) (p : Particle) : Particle :=
  let '(std_x, std_y, std_theta) := std_pos in
  let prev_theta := p_theta p in
  let p :=
    if Rgtb (Rabs yaw_rate) 0.0001 then
      let p := set_x p (p_x p + (velocity / yaw_rate) *
                 (sin (prev_theta + yaw_rate * delta_t) - sin prev_theta)) in
      set_y p (p_y p + (velocity / yaw_rate) *
                 (cos prev_theta - cos (prev_theta + yaw_rate * delta_t)))
    else
      let p := set_x p (p_x p + velocity * delta_t * cos prev_theta) in
      set_y p (p_y p + velocity * delta_t * sin prev_theta) in
  let p := set_theta p (prev_theta + yaw_rate * delta_t) in
  let p := set_x p (p_x p + normal_distribution 0 std_x zx) in
  let p := set_y p (p_y p + normal_distribution 0 std_y zy) in
  set_theta p (p_theta p + normal_distribution 0 std_theta zt).

(** The loop of [prediction] from index [par_index] on. *)
Fixpoint prediction_loop (gen : nat -> R) (delta_t : R) (std_pos : R * R * R)
    (velocity yaw_rate : R) (par_index : nat) (ps : list Particle)
    : list Particle :=
  match ps with
  | [] => []
  | p :: rest =>
      prediction_body delta_t std_pos velocity yaw_rate
        (gen (3 * par_index)%nat) (gen (3 * par_index + 1)%nat)
        (gen (3 * par_index + 2)%nat) p
      :: prediction_loop gen delta_t std_pos velocity yaw_rate
           (S par_index) rest
  end.

(** [ParticleFilter::prediction]. *)
Definition prediction (gen : nat -> R) (delta_t : R) (std_pos : R * R * R)
    (velocity yaw_rate : R) (pf : ParticleFilter) : ParticleFilter :=
  mkFilter (num_particles pf) (is_initialized pf)
    (prediction_loop gen delta_t std_pos velocity yaw_rate 0 (particles pf)).

(** The inner loop of [dataAssociation] for one observation, over the
    landmarks from index [land_index] on.  [indexOfLandmark] is declared
    without an initial value: it is [None] until first assigned. *)
Fixpoint closest_loop (observation : LandmarkObs)
    (lms : list single_landmark_s) (land_index : nat) (minDistance : R)
    (indexOfLandmark : option nat) : option nat :=
  match lms with
  | [] => indexOfLandmark
  | lm :: rest =>
      let currentDistance :=
        dist (x_f lm) (y_f lm) (obs_x observation) (obs_y observation) in
      if Rleb currentDistance minDistance then
        closest_loop observation rest (S land_index) currentDistance
          (Some land_index)
      else
        closest_loop observation rest (S land_index) minDistance
          indexOfLandmark
  end.

(** The body of the outer loop of [dataAssociation]: the landmark
    associated with one observation. *)
Definition dataAssociation_body (landmarks : list single_landmark_s)
    (observation : LandmarkObs) : option LandmarkObs :=
  indexOfLandmark <- closest_loop observation landmarks 0 DBL_MAX None ;;
  lm <- nth_error landmarks indexOfLandmark ;;
  Some (mkLandmarkObs (id_i lm) (x_f lm) (y_f lm)).

(** [ParticleFilter::dataAssociation]. *)
Fixpoint dataAssociation (landmarks : list single_landmark_s)
    (observations : list LandmarkObs) : option (list LandmarkObs) :=
  match observations with
  | [] => Some []
  | o :: rest =>
      closestLandmark <- dataAssociation_body landmarks o ;;
      associatedLandmarks <- dataAssociation landmarks rest ;;
      Some (closestLandmark :: associatedLandmarks)
  end.

(** [ParticleFilter::convertVehicleToMapCoords]. *)
Definition convertVehicleToMapCoords (observationToConvert : LandmarkObs)
    (particle : Particle) : LandmarkObs :=
  mkLandmarkObs
    (obs_id observationToConvert)
    (p_x particle + obs_x observationToConvert * cos (p_theta particle)
                  - obs_y observationToConvert * sin (p_theta particle))
    (p_y particle + obs_x observationToConvert * sin (p_theta particle)
                  + obs_y observationToConvert * cos (p_theta particle)).

(** The landmarks within sensor range of a particle. *)
Definition predicted_landmarks (sensor_range : R) (map_landmarks : Map)
    (particle : Particle) : list single_landmark_s :=
  filter (fun lm =>
            Rleb (dist (p_x particle) (p_y particle) (x_f lm) (y_f lm))
                 sensor_range)
         (landmark_list map_landmarks).

(** The last loop of [updateWeights]: the product of the densities of the
    associated landmarks and the converted observations, taken pairwise. *)
Fixpoint multi_gaussian_loop (std_landmark : R * R)
    (pairs : list (LandmarkObs * LandmarkObs)) (multi_gaussian : R) : R :=
  match pairs with
  | [] => multi_gaussian
  | (associated, converted) :: rest =>
      let std_x := fst std_landmark in
      let std_y := snd std_landmark in
      multi_gaussian_loop std_landmark rest
        (multi_gaussian *
         multi_gaussian_term std_x std_y
           (obs_x associated - obs_x converted)
           (obs_y associated - obs_y converted))
  end.

(** The body of the particle loop of [updateWeights]. *)
Definition updateWeights_body (sensor_range : R) (std_landmark : R * R)
    (observations : list LandmarkObs) (map_landmarks : Map)
    (particle : Particle) : option Particle :=
  let predicted := predicted_landmarks sensor_range map_landmarks particle in
  let convertedObservations :=
    map (fun o => convertVehicleToMapCoords o particle) observations in
  associatedLandmarks <- dataAssociation predicted convertedObservations ;;
  let multi_gaussian :=
    multi_gaussian_loop std_landmark
      (combine associatedLandmarks convertedObservations) 1 in
  Some (set_weight particle multi_gaussian).

(** The particle loop of [updateWeights]. *)
Fixpoint updateWeights_loop (sensor_range : R) (std_landmark : R * R)
    (observations : list LandmarkObs) (map_landmarks : Map)
    (ps : list Particle) : option (list Particle) :=
  match ps with
  | [] => Some []
  | p :: rest =>
      p' <- updateWeights_body sensor_range std_landmark observations
              map_landmarks p ;;
      rest' <- updateWeights_loop sensor_range std_landmark observations
                 map_landmarks rest ;;
      Some (p' :: rest')
  end.

(** [ParticleFilter::updateWeights]. *)
Definition updateWeights (sensor_range : R) (std_landmark : R * R)
    (observations : list LandmarkObs) (map_landmarks : Map)
    (pf : ParticleFilter) : option ParticleFilter :=
  ps <- updateWeights_loop sensor_range std_landmark observations
          map_landmarks (particles pf) ;;
  Some (mkFilter (num_particles pf) (is_initialized pf) ps).

(** The drawing loop of [resample]: draw number [par_index] and the
    following ones. *)
Fixpoint resample_loop (weights_dist : nat -> nat)
    (particlesCopy : list Particle) (par_index : nat) (count : nat)
    (ps : list Particle) : option (list Particle) :=
  match count with
  | O => Some ps
  | S count' =>
      p <- nth_error particlesCopy (weights_dist par_index) ;;
      resample_loop weights_dist particlesCopy (S par_index) count'
        (ps ++ [p])
  end.

(** [ParticleFilter::resample]. *)
Definition resample (sampler : list R -> nat -> nat) (pf : ParticleFilter)
    : option ParticleFilter :=
  let particlesCopy := particles pf in
  let weights := map p_weight particlesCopy in
  let weights_dist := sampler weights in
  ps <- resample_loop weights_dist particlesCopy 0 (length particlesCopy) [] ;;
  Some (mkFilter (num_particles pf) (is_initialized pf) ps).

(** The loop of [write]: [count] iterations from index [par_index] on, on
    a stream that holds [dataFile]; [show] is [operator<<] for a
    [double].  The last particle is written without a line feed. *)
Fixpoint write_loop (show : R -> String.string) (num : Z)
    (ps : list Particle) (par_index : nat) (count : nat)
    (dataFile : String.string) : option String.string :=
  match count with
  | O => Some dataFile
  | S count' =>
      p <- nth_error ps par_index ;;
      let comma := String.String (Ascii.ascii_of_nat 44) String.EmptyString in
      let record :=
        String.append (show (p_x p))
          (String.append comma
             (String.append (show (p_y p))
                (String.append comma (show (p_theta p))))) in
      if (Z.of_nat par_index =? num - 1)%Z then
        write_loop show num ps (S par_index) count'
          (String.append dataFile record)
      else
        write_loop show num ps (S par_index) count'
          (String.append dataFile (String.append record Stream.newline))
  end.

(** [ParticleFilter::write]: the file is removed, then opened for
    appending. *)
Definition write (show : R -> String.string) (filename : String.string)
    (pf : ParticleFilter) (fs : Stream.FileSystem)
    : option Stream.FileSystem :=
  let fs := Stream.store fs filename None in
  let opened :=
    match fs filename with
    | Some content => content
    | None => String.EmptyString
    end in
  dataFile <- write_loop show (num_particles pf) (particles pf) 0
                (Z.to_nat (num_particles pf)) opened ;;
  Some (Stream.store fs filename (Some dataFile)).

(** [ParticleFilter::SetAssociations]. *)
Definition SetAssociations (particle : Particle) (associations : list Z)
    (sense_x sense_y : list R) : Particle :=
  let particle := set_associations particle [] in
  let particle := set_sense_x particle [] in
  let particle := set_sense_y particle [] in
  let particle := set_associations particle associations in
  let particle := set_sense_x particle sense_x in
  let particle := set_sense_y particle sense_y in
  particle.

(** [ParticleFilter::getAssociations]. *)
Definition getAssociations (best : Particle) : option String.string :=
  let v := p_associations best in
  let s :=
    Stream.copy_to_stream Stream.show_int
      (String.String (Ascii.ascii_of_nat 32) String.EmptyString) v
      String.EmptyString in
  Stream.substr s 0 (Stream.size_minus_one (N.of_nat (String.length s))).

(** [ParticleFilter::getSenseX]; [show_float] is the conversion of a
    [double] to [float] followed by [operator<<]. *)
Definition getSenseX (show_float : R -> String.string) (best : Particle)
    : option String.string :=
  let v := p_sense_x best in
  let s :=
    Stream.copy_to_stream show_float
      (String.String (Ascii.ascii_of_nat 32) String.EmptyString) v
      String.EmptyString in
  Stream.substr s 0 (Stream.size_minus_one (N.of_nat (String.length s))).

(** [ParticleFilter::getSenseY]. *)
Definition getSenseY (show_float : R -> String.string) (best : Particle)
    : option String.string :=
  let v := p_sense_y best in
  let s :=
    Stream.copy_to_stream show_float
      (String.String (Ascii.ascii_of_nat 32) String.EmptyString) v
      String.EmptyString in
  Stream.substr s 0 (Stream.size_minus_one (N.of_nat (String.length s))).

End Rev2.

(** ** Predicates used in the statements *)

(** The pose the motion model prescribes for a particle [p], with the
    noise terms [nx], [ny], [nt] added: the pose of [p'] . *)
Definition predicted_pose (delta_t velocity yaw_rate nx ny nt : R)
    (p p' : Particle) : Prop :=
  (Rabs yaw_rate > 0.0001 ->
     p_x p' = p_x p + (velocity / yaw_rate) *
                (sin (p_theta p + yaw_rate * delta_t) - sin (p_theta p)) + nx
     /\ p_y p' = p_y p + (velocity / yaw_rate) *
                (cos (p_theta p) - cos (p_theta p + yaw_rate * delta_t)) + ny)
  /\ (~ Rabs yaw_rate > 0.0001 ->
     p_x p' = p_x p + velocity * delta_t * cos (p_theta p) + nx
     /\ p_y p' = p_y p + velocity * delta_t * sin (p_theta p) + ny)
  /\ p_theta p' = p_theta p + yaw_rate * delta_t + nt.

(** The members [prediction] does not assign. *)
Definition same_frame (p p' : Particle) : Prop :=
  p_id p' = p_id p /\ p_weight p' = p_weight p
  /\ p_associations p' = p_associations p
  /\ p_sense_x p' = p_sense_x p /\ p_sense_y p' = p_sense_y p.

(** The invariant of the filter state: the particle vector holds
    [num_particles] elements. *)
Definition count_ok (pf : ParticleFilter) : Prop :=
  Z.of_nat (length (particles pf)) = num_particles pf.

(** A filter on which [init] has not run yet. *)
Definition fresh_filter : ParticleFilter := mkFilter 0 false [].

(** Sample values used to instantiate the statements below. *)
Definition sample_particle (w : R) : Particle := mkParticle 0 0 0 0 w [] [] [].

Definition sample_filter (ws : list R) : ParticleFilter :=
  mkFilter (Z.of_nat (length ws)) true (map sample_particle ws).

Definition zero_gen : nat -> R := fun _ => 0.

(** The distance [dataAssociation] computes between a landmark and an
    observation. *)
Definition landmark_distance (lm : single_landmark_s) (o : LandmarkObs) : R :=
  dist (x_f lm) (y_f lm) (obs_x o) (obs_y o).

(** Index [k] holds a landmark of [lms] at minimal distance from [o], and
    no landmark at a larger index is at that distance. *)
Definition nearest_last (lms : list single_landmark_s) (o : LandmarkObs)
    (k : nat) : Prop :=
  exists lm,
    nth_error lms k = Some lm
    /\ forall j lm', nth_error lms j = Some lm' ->
         landmark_distance lm o <= landmark_distance lm' o
         /\ (landmark_distance lm' o = landmark_distance lm o -> (j <= k)%nat).

(** The same among the landmarks within [sensor_range] of [o]. *)
Definition nearest_last_in_range (sensor_range : R)
    (lms : list single_landmark_s) (o : LandmarkObs) (k : nat) : Prop :=
  exists lm,
    nth_error lms k = Some lm
    /\ landmark_distance lm o <= sensor_range
    /\ forall j lm', nth_error lms j = Some lm' ->
         landmark_distance lm' o <= sensor_range ->
         landmark_distance lm o <= landmark_distance lm' o
         /\ (landmark_distance lm' o = landmark_distance lm o -> (j <= k)%nat).

(** The landmark at index [k], as [dataAssociation] returns it in the
    second revision. *)
Definition associated_with (lms : list single_landmark_s) (o : LandmarkObs)
    (a : LandmarkObs) : Prop :=
  exists k lm,
    nth_error lms k = Some lm
    /\ nearest_last lms o k
    /\ a = mkLandmarkObs (id_i lm) (x_f lm) (y_f lm).

(** Sample landmarks on the x axis and an observation at the origin. *)
Definition landmark_east : single_landmark_s := mkLandmark 1 1 0.

Definition landmark_west : single_landmark_s := mkLandmark 2 (-1) 0.

Definition landmark_far : single_landmark_s := mkLandmark 3 3 0.

Definition origin_obs : LandmarkObs := mkLandmarkObs 0 0 0.

Definition landmark_origin : single_landmark_s := mkLandmark 4 0 0.

Definition origin_map : Map := mkMap [landmark_origin].

(** The conditions under which the two revisions of [updateWeights] give
    particle [p] the same weight: the prior weight is 1 and, for every
    observation, the two transforms return the same map-frame observation
    and the map landmark nearest to it (the last one on ties) is within
    sensor range both of the transformed observation and of the
    particle. *)
Definition revisions_comparable (sensor_range : R)
    (observations : list LandmarkObs) (map_landmarks : Map) (p : Particle)
    : Prop :=
  p_weight p = 1
  /\ forall o, In o observations ->
       Rev1.convertVehicleToMapCoords o p = Rev2.convertVehicleToMapCoords o p
       /\ exists k lm,
            nth_error (landmark_list map_landmarks) k = Some lm
            /\ nearest_last (landmark_list map_landmarks)
                 (Rev2.convertVehicleToMapCoords o p) k
            /\ landmark_distance lm (Rev2.convertVehicleToMapCoords o p)
               <= sensor_range
            /\ dist (p_x p) (p_y p) (x_f lm) (y_f lm) <= sensor_range.

(** Sample map with a landmark at the origin and one far away. *)
Definition landmark_hundred : single_landmark_s := mkLandmark 6 100 0.

Definition far_pair_map : Map := mkMap [landmark_origin; landmark_hundred].

(** Sample input on which the two revisions select different landmarks:
    landmarks at (1, 0) and (4, 0), an observation at (3, 0). *)
Definition landmark_four : single_landmark_s := mkLandmark 5 4 0.

Definition obs_three : LandmarkObs := mkLandmarkObs 0 3 0.

Definition two_landmark_map : Map := mkMap [landmark_east; landmark_four].

(** The particle [init] creates in iteration [i]. *)
Definition initial_particle (gen : nat -> R) (x y theta : R) (std : R * R * R)
    (i : nat) : Particle :=
  mkParticle (Z.of_nat i)
    (x + fst (fst std) * gen (3 * i)%nat)
    (y + snd (fst std) * gen (3 * i + 1)%nat)
    (theta + snd std * gen (3 * i + 2)%nat)
    1 [] [] [].

(** [p'] is [p] with another weight. *)
Definition reweighted (p p' : Particle) : Prop :=
  p' = set_weight p (p_weight p').

(** The largest value of the density for the standard deviations
    [std_landmark]. *)
Definition peak_density (std_landmark : R * R) : R :=
  1 / (2 * PI * fst std_landmark * snd std_landmark).

(** The record [write] produces for a particle in the first revision, line
    feed included, and in the second revision. *)
Definition record_rev1 (show : R -> String.string) (p : Particle)
    : String.string :=
  String.append (show (p_x p))
    (String.append (String.String (Ascii.ascii_of_nat 32) String.EmptyString)
       (String.append (show (p_y p))
          (String.append
             (String.String (Ascii.ascii_of_nat 32) String.EmptyString)
             (String.append (show (p_theta p)) Stream.newline)))).

Definition record_rev2 (show : R -> String.string) (p : Particle)
    : String.string :=
  String.append (show (p_x p))
    (String.append (String.String (Ascii.ascii_of_nat 44) String.EmptyString)
       (String.append (show (p_y p))
          (String.append
             (String.String (Ascii.ascii_of_nat 44) String.EmptyString)
             (show (p_theta p))))).

(** The blank that separates the entries of a rendered vector. *)
Definition blank : String.string :=
  String.String (Ascii.ascii_of_nat 32) String.EmptyString.

(** The strings of a list written one after the other. *)
Definition flatten (l : list String.string) : String.string :=
  fold_right String.append String.EmptyString l.

(** The content of the file [filename] when it is opened for appending: a
    missing file is created empty. *)
Definition opened_content (fs : Stream.FileSystem) (filename : String.string)
    : String.string :=
  match fs filename with
  | Some content => content
  | None => String.EmptyString
  end.

(** ** Auxiliary facts on the numeric model *)

Lemma Rleb_true (a b : R) : a <= b -> Rleb a b = true.
Proof. intros H. unfold Rleb. destruct (Rle_dec a b); [reflexivity | contradiction]. Qed.

Lemma Rleb_false (a b : R) : ~ a <= b -> Rleb a b = false.
Proof. intros H. unfold Rleb. destruct (Rle_dec a b); [contradiction | reflexivity]. Qed.

Lemma Rleb_spec (a b : R) : Rleb a b = true <-> a <= b.
Proof.
  unfold Rleb. destruct (Rle_dec a b); split; intros H;
    try reflexivity; try assumption; try discriminate; contradiction.
Qed.

Lemma Rgtb_true (a b : R) : a > b -> Rgtb a b = true.
Proof. intros H. unfold Rgtb. destruct (Rgt_dec a b); [reflexivity | contradiction]. Qed.

Lemma Rgtb_false (a b : R) : ~ a > b -> Rgtb a b = false.
Proof. intros H. unfold Rgtb. destruct (Rgt_dec a b); [contradiction | reflexivity]. Qed.

Lemma DBL_MAX_ge_1 : 1 <= DBL_MAX.
Proof.
  unfold DBL_MAX.
  assert (H1 : 1 <= 2 ^ 1023) by (apply pow_R1_Rle; lra).
  assert (H2 : 1 <= 2 ^ 52) by (apply pow_R1_Rle; lra).
  assert (H3 : / 2 ^ 52 <= 1).
  { rewrite <- Rinv_1. apply Rinv_le_contravar; lra. }
  nra.
Qed.

Lemma DBL_MAX_ge_100 : 100 <= DBL_MAX.
Proof.
  unfold DBL_MAX.
  assert (H1 : 128 <= 2 ^ 1023).
  { replace 1023%nat with (7 + 1016)%nat by reflexivity. rewrite pow_add.
    assert (1 <= 2 ^ 1016) by (apply pow_R1_Rle; lra).
    replace (2 ^ 7) with 128 by (simpl; ring). lra. }
  assert (H2 : 1 <= 2 ^ 52) by (apply pow_R1_Rle; lra).
  assert (H3 : / 2 ^ 52 <= 1).
  { rewrite <- Rinv_1. apply Rinv_le_contravar; lra. }
  nra.
Qed.

Lemma dist_nonneg (x1 y1 x2 y2 : R) : 0 <= dist x1 y1 x2 y2.
Proof. unfold dist. apply sqrt_pos. Qed.

(** [dist] evaluates to [d] once the sum of squares is known to be [d * d]. *)
Lemma dist_eval (x1 y1 x2 y2 d : R) :
  0 <= d ->
  (x2 - x1) * (x2 - x1) + (y2 - y1) * (y2 - y1) = d * d ->
  dist x1 y1 x2 y2 = d.
Proof.
  intros Hd Hsq. unfold dist. rewrite Hsq. apply sqrt_square. exact Hd.
Qed.

Lemma dist_sym (x1 y1 x2 y2 : R) : dist x1 y1 x2 y2 = dist x2 y2 x1 y1.
Proof. unfold dist. f_equal. ring. Qed.

(** ** The coordinate transform *)

(** The second revision computes the rigid transform from the untouched
    input observation. *)
Lemma convertVehicleToMapCoords_rev2_rigid (o : LandmarkObs) (p : Particle) :
  obs_x (Rev2.convertVehicleToMapCoords o p)
    = p_x p + obs_x o * cos (p_theta p) - obs_y o * sin (p_theta p)
  /\ obs_y (Rev2.convertVehicleToMapCoords o p)
    = p_y p + obs_x o * sin (p_theta p) + obs_y o * cos (p_theta p)
  /\ obs_id (Rev2.convertVehicleToMapCoords o p) = obs_id o.
Proof. repeat split. Qed.

(** The first revision assigns [observation.x] first and then reads it
    again for [observation.y]. *)
Lemma convertVehicleToMapCoords_rev1_fields (o : LandmarkObs) (p : Particle) :
  obs_x (Rev1.convertVehicleToMapCoords o p)
    = p_x p + obs_x o * cos (p_theta p) - obs_y o * sin (p_theta p)
  /\ obs_y (Rev1.convertVehicleToMapCoords o p)
    = p_y p
      + (p_x p + obs_x o * cos (p_theta p) - obs_y o * sin (p_theta p))
        * sin (p_theta p)
      + obs_y o * cos (p_theta p)
  /\ obs_id (Rev1.convertVehicleToMapCoords o p) = obs_id o.
Proof. repeat split. Qed.

(** The two revisions of the transform agree for a heading whose sine is
    zero. *)
Lemma convertVehicleToMapCoords_agree (o : LandmarkObs) (p : Particle) :
  sin (p_theta p) = 0 ->
  Rev1.convertVehicleToMapCoords o p = Rev2.convertVehicleToMapCoords o p.
Proof.
  intros Hs. unfold Rev1.convertVehicleToMapCoords, Rev2.convertVehicleToMapCoords.
  unfold set_obs_y, set_obs_x. simpl. rewrite Hs. f_equal; ring.
Qed.

(** C1 (first revision, at particle pose (1, 0, PI/2) and observation
    (0, 0)): the transform returns mapX = 1 and mapY = 1, although the
    rigid transform of the untransformed observation has
    mapY = py + obsX * sin(ptheta) + obsY * cos(ptheta) = 0; mapY is
    computed from the already overwritten x. *)
Theorem convertVehicleToMapCoords_rev1_reads_new_x :
  let particle := mkParticle 0 1 0 (PI / 2) 1 [] [] [] in
  let observation := mkLandmarkObs 0 0 0 in
  obs_x (Rev1.convertVehicleToMapCoords observation particle) = 1
  /\ obs_y (Rev1.convertVehicleToMapCoords observation particle) = 1
  /\ p_y particle + obs_x observation * sin (p_theta particle)
       + obs_y observation * cos (p_theta particle) = 0.
Proof.
  cbv zeta. unfold Rev1.convertVehicleToMapCoords, set_obs_y, set_obs_x. simpl.
  rewrite sin_PI2, cos_PI2. repeat split; ring.
Qed.

(** ** The motion model *)

Lemma prediction_body_rev1_pose delta_t std_x std_y std_theta velocity yaw_rate
    zx zy zt p :
  predicted_pose delta_t velocity yaw_rate
    (normal_distribution 0 std_x zx) (normal_distribution 0 std_y zy)
    (normal_distribution 0 std_theta zt) p
    (Rev1.prediction_body delta_t (std_x, std_y, std_theta) velocity yaw_rate
       zx zy zt p).
Proof.
  unfold predicted_pose, Rev1.prediction_body.
  destruct (Rgt_dec (Rabs yaw_rate) 0.0001) as [Hgt | Hle].
  - rewrite (Rgtb_true _ _ Hgt). simpl. repeat split; intros; try reflexivity.
    all: contradiction.
  - rewrite (Rgtb_false _ _ Hle). simpl. repeat split; intros; try reflexivity.
    all: contradiction.
Qed.

Lemma prediction_body_rev2_pose delta_t std_x std_y std_theta velocity yaw_rate
    zx zy zt p :
  predicted_pose delta_t velocity yaw_rate
    (normal_distribution 0 std_x zx) (normal_distribution 0 std_y zy)
    (normal_distribution 0 std_theta zt) p
    (Rev2.prediction_body delta_t (std_x, std_y, std_theta) velocity yaw_rate
       zx zy zt p).
Proof.
  unfold predicted_pose, Rev2.prediction_body.
  destruct (Rgt_dec (Rabs yaw_rate) 0.0001) as [Hgt | Hle].
  - rewrite (Rgtb_true _ _ Hgt). simpl. repeat split; intros; try reflexivity.
    all: contradiction.
  - rewrite (Rgtb_false _ _ Hle). simpl. repeat split; intros; try reflexivity.
    all: contradiction.
Qed.

Lemma prediction_body_rev1_frame delta_t std_pos velocity yaw_rate zx zy zt p :
  same_frame p
    (Rev1.prediction_body delta_t std_pos velocity yaw_rate zx zy zt p).
Proof.
  destruct std_pos as [[sx sy] st]. unfold same_frame, Rev1.prediction_body.
  destruct (Rgtb (Rabs yaw_rate) 0.0001); simpl; repeat split.
Qed.

Lemma prediction_body_rev2_frame delta_t std_pos velocity yaw_rate zx zy zt p :
  same_frame p
    (Rev2.prediction_body delta_t std_pos velocity yaw_rate zx zy zt p).
Proof.
  destruct std_pos as [[sx sy] st]. unfold same_frame, Rev2.prediction_body.
  destruct (Rgtb (Rabs yaw_rate) 0.0001); simpl; repeat split.
Qed.

(** The loops of [prediction] treat particle [i] of the remaining list with
    the variates [3 * (k + i)], [3 * (k + i) + 1], [3 * (k + i) + 2]. *)
Lemma prediction_loop_rev1_nth gen delta_t std_pos velocity yaw_rate :
  forall ps k i p,
    nth_error ps i = Some p ->
    nth_error (Rev1.prediction_loop gen delta_t std_pos velocity yaw_rate k ps) i
    = Some (Rev1.prediction_body delta_t std_pos velocity yaw_rate
              (gen (3 * (k + i))%nat) (gen (3 * (k + i) + 1)%nat)
              (gen (3 * (k + i) + 2)%nat) p).
Proof.
  induction ps as [| q rest IH]; intros k i p Hi.
  - destruct i; discriminate.
  - destruct i as [| i]; cbn [nth_error] in Hi.
    + injection Hi as ->. rewrite Nat.add_0_r. reflexivity.
    + cbn [nth_error Rev1.prediction_loop Rev2.prediction_loop].
      rewrite (IH (S k) i p Hi).
      replace (S k + i)%nat with (k + S i)%nat by lia. reflexivity.
Qed.

Lemma prediction_loop_rev2_nth gen delta_t std_pos velocity yaw_rate :
  forall ps k i p,
    nth_error ps i = Some p ->
    nth_error (Rev2.prediction_loop gen delta_t std_pos velocity yaw_rate k ps) i
    = Some (Rev2.prediction_body delta_t std_pos velocity yaw_rate
              (gen (3 * (k + i))%nat) (gen (3 * (k + i) + 1)%nat)
              (gen (3 * (k + i) + 2)%nat) p).
Proof.
  induction ps as [| q rest IH]; intros k i p Hi.
  - destruct i; discriminate.
  - destruct i as [| i]; cbn [nth_error] in Hi.
    + injection Hi as ->. rewrite Nat.add_0_r. reflexivity.
    + cbn [nth_error Rev1.prediction_loop Rev2.prediction_loop].
      rewrite (IH (S k) i p Hi).
      replace (S k + i)%nat with (k + S i)%nat by lia. reflexivity.
Qed.

(** C5: in both revisions, particle [i] of the filter leaves [prediction]
    with the pose of the motion model plus the noise drawn for it: for
    |yawRate| > 1e-4, x' = x + (v/w)(sin(theta + w dt) - sin theta) and
    y' = y + (v/w)(cos theta - cos(theta + w dt)); otherwise
    x' = x + v dt cos theta and y' = y + v dt sin theta; and in both cases
    theta' = theta + w dt. *)
Theorem prediction_motion_model :
  forall gen delta_t std_x std_y std_theta velocity yaw_rate pf i p,
    nth_error (particles pf) i = Some p ->
    exists p1 p2,
      nth_error (particles (Rev1.prediction gen delta_t
                   (std_x, std_y, std_theta) velocity yaw_rate pf)) i = Some p1
      /\ nth_error (particles (Rev2.prediction gen delta_t
                   (std_x, std_y, std_theta) velocity yaw_rate pf)) i = Some p2
      /\ predicted_pose delta_t velocity yaw_rate
           (normal_distribution 0 std_x (gen (3 * i)%nat))
           (normal_distribution 0 std_y (gen (3 * i + 1)%nat))
           (normal_distribution 0 std_theta (gen (3 * i + 2)%nat)) p p1
      /\ predicted_pose delta_t velocity yaw_rate
           (normal_distribution 0 std_x (gen (3 * i)%nat))
           (normal_distribution 0 std_y (gen (3 * i + 1)%nat))
           (normal_distribution 0 std_theta (gen (3 * i + 2)%nat)) p p2.
Proof.
  intros gen delta_t std_x std_y std_theta velocity yaw_rate pf i p Hi.
  eexists. eexists.
  unfold Rev1.prediction, Rev2.prediction. cbn [particles].
  rewrite (prediction_loop_rev1_nth _ _ _ _ _ _ 0%nat i p Hi).
  rewrite (prediction_loop_rev2_nth _ _ _ _ _ _ 0%nat i p Hi).
  rewrite Nat.add_0_l.
  split; [reflexivity |]. split; [reflexivity |]. split.
  - apply prediction_body_rev1_pose.
  - apply prediction_body_rev2_pose.
Qed.

Lemma prediction_motion_model_witness :
  exists p1 p2,
    nth_error (particles (Rev1.prediction zero_gen 1 (0, 0, 0) 1 0
                 (sample_filter [1]))) 0 = Some p1
    /\ nth_error (particles (Rev2.prediction zero_gen 1 (0, 0, 0) 1 0
                 (sample_filter [1]))) 0 = Some p2
    /\ predicted_pose 1 1 0
         (normal_distribution 0 0 (zero_gen (3 * 0)%nat))
         (normal_distribution 0 0 (zero_gen (3 * 0 + 1)%nat))
         (normal_distribution 0 0 (zero_gen (3 * 0 + 2)%nat))
         (sample_particle 1) p1
    /\ predicted_pose 1 1 0
         (normal_distribution 0 0 (zero_gen (3 * 0)%nat))
         (normal_distribution 0 0 (zero_gen (3 * 0 + 1)%nat))
         (normal_distribution 0 0 (zero_gen (3 * 0 + 2)%nat))
         (sample_particle 1) p2.
Proof.
  exact (prediction_motion_model zero_gen 1 0 0 0 1 0 (sample_filter [1]) 0%nat
           (sample_particle 1) eq_refl).
Defined.

(** ** What [prediction] leaves alone *)

Lemma prediction_loop_rev1_frame gen delta_t std_pos velocity yaw_rate :
  forall ps k,
    Forall2 same_frame ps
      (Rev1.prediction_loop gen delta_t std_pos velocity yaw_rate k ps).
Proof.
  induction ps as [| p rest IH]; intros k; cbn [Rev1.prediction_loop].
  - constructor.
  - constructor; [apply prediction_body_rev1_frame | apply IH].
Qed.

Lemma prediction_loop_rev2_frame gen delta_t std_pos velocity yaw_rate :
  forall ps k,
    Forall2 same_frame ps
      (Rev2.prediction_loop gen delta_t std_pos velocity yaw_rate k ps).
Proof.
  induction ps as [| p rest IH]; intros k; cbn [Rev2.prediction_loop].
  - constructor.
  - constructor; [apply prediction_body_rev2_frame | apply IH].
Qed.

Lemma Forall2_same_length {A B : Type} (P : A -> B -> Prop) (l : list A)
    (l' : list B) :
  Forall2 P l l' -> length l' = length l.
Proof. induction 1; simpl; congruence. Qed.

(** C10: in both revisions [prediction] keeps the number of particles, and
    particle by particle the members id, weight, associations, sense_x and
    sense_y; the members [num_particles] and [is_initialized] of the filter
    are kept as well. *)
Theorem prediction_frame :
  forall gen delta_t std_pos velocity yaw_rate pf,
    let pf1 := Rev1.prediction gen delta_t std_pos velocity yaw_rate pf in
    let pf2 := Rev2.prediction gen delta_t std_pos velocity yaw_rate pf in
    (length (particles pf1) = length (particles pf)
     /\ Forall2 same_frame (particles pf) (particles pf1)
     /\ num_particles pf1 = num_particles pf
     /\ is_initialized pf1 = is_initialized pf)
    /\ (length (particles pf2) = length (particles pf)
        /\ Forall2 same_frame (particles pf) (particles pf2)
        /\ num_particles pf2 = num_particles pf
        /\ is_initialized pf2 = is_initialized pf).
Proof.
  intros gen delta_t std_pos velocity yaw_rate pf pf1 pf2.
  assert (F1 := prediction_loop_rev1_frame gen delta_t std_pos velocity
                  yaw_rate (particles pf) 0).
  assert (F2 := prediction_loop_rev2_frame gen delta_t std_pos velocity
                  yaw_rate (particles pf) 0).
  split; (split; [| split; [| split; reflexivity]]).
  - exact (Forall2_same_length _ _ _ F1).
  - exact F1.
  - exact (Forall2_same_length _ _ _ F2).
  - exact F2.
Qed.

(** ** The number of particles *)

Lemma init_loop_rev1_length gen x y theta std :
  forall idx ps,
    length (fold_left (Rev1.init_body gen x y theta std) idx ps)
    = (length ps + length idx)%nat.
Proof.
  destruct std as [[sx sy] st].
  induction idx as [| i idx IH]; intros ps; cbn [fold_left length].
  - lia.
  - rewrite IH. unfold Rev1.init_body. rewrite length_app. simpl. lia.
Qed.

Lemma init_loop_rev2_length gen x y theta std :
  forall idx ps,
    length (fold_left (Rev2.init_body gen x y theta std) idx ps)
    = (length ps + length idx)%nat.
Proof.
  destruct std as [[sx sy] st].
  induction idx as [| i idx IH]; intros ps; cbn [fold_left length].
  - lia.
  - rewrite IH. unfold Rev2.init_body. rewrite length_app. simpl. lia.
Qed.

(** [init] appends to the particles that are already there. *)
Lemma init_rev1_length gen x y theta std pf :
  length (particles (Rev1.init gen x y theta std pf))
  = (length (particles pf) + 100)%nat.
Proof.
  unfold Rev1.init. cbn [particles].
  rewrite init_loop_rev1_length, length_seq. reflexivity.
Qed.

Lemma init_rev2_length gen x y theta std pf :
  length (particles (Rev2.init gen x y theta std pf))
  = (length (particles pf) + 200)%nat.
Proof.
  unfold Rev2.init. cbn [particles].
  rewrite init_loop_rev2_length, length_seq. reflexivity.
Qed.

Lemma updateWeights_loop_rev1_length sensor_range std_landmark observations
    map_landmarks :
  forall ps ps',
    Rev1.updateWeights_loop sensor_range std_landmark observations
      map_landmarks ps = Some ps' ->
    length ps' = length ps.
Proof.
  induction ps as [| p rest IH]; intros ps' H; cbn [Rev1.updateWeights_loop] in H.
  - injection H as <-. reflexivity.
  - destruct (Rev1.updateWeights_obs _ _ _ _ p) as [p' |]; [| discriminate].
    cbn [bind] in H.
    destruct (Rev1.updateWeights_loop _ _ _ _ rest) as [rest' |];
      [| discriminate].
    cbn [bind] in H. injection H as <-. simpl. f_equal. apply IH. reflexivity.
Qed.

Lemma updateWeights_loop_rev2_length sensor_range std_landmark observations
    map_landmarks :
  forall ps ps',
    Rev2.updateWeights_loop sensor_range std_landmark observations
      map_landmarks ps = Some ps' ->
    length ps' = length ps.
Proof.
  induction ps as [| p rest IH]; intros ps' H; cbn [Rev2.updateWeights_loop] in H.
  - injection H as <-. reflexivity.
  - destruct (Rev2.updateWeights_body _ _ _ _ p) as [p' |]; [| discriminate].
    cbn [bind] in H.
    destruct (Rev2.updateWeights_loop _ _ _ _ rest) as [rest' |];
      [| discriminate].
    cbn [bind] in H. injection H as <-. simpl. f_equal. apply IH. reflexivity.
Qed.

(** An index of positive probability lies inside the weight vector and
    its weight is not zero. *)
Lemma positive_probability_index (ws : list R) (i : nat) :
  0 < discrete_distribution ws i -> (i < length ws)%nat /\ nth i ws 0 <> 0.
Proof.
  unfold discrete_distribution. intros H.
  assert (Hn : nth i ws 0 <> 0).
  { intros E. rewrite E in H. unfold Rdiv in H. rewrite Rmult_0_l in H. lra. }
  split; [| exact Hn].
  destruct (Nat.lt_ge_cases i (length ws)) as [Hlt | Hge]; [exact Hlt |].
  exfalso. apply Hn. apply nth_overflow. exact Hge.
Qed.

(** The drawing loops of the two revisions are the same function. *)
Lemma resample_loop_same weights_dist particlesCopy :
  forall count par_index ps,
    Rev2.resample_loop weights_dist particlesCopy par_index count ps
    = Rev1.resample_loop weights_dist particlesCopy par_index count ps.
Proof.
  induction count as [| count IH]; intros par_index ps; simpl.
  - reflexivity.
  - destruct (nth_error particlesCopy (weights_dist par_index)); simpl;
      [apply IH | reflexivity].
Qed.

Lemma resample_same sampler pf : Rev2.resample sampler pf = Rev1.resample sampler pf.
Proof.
  unfold Rev2.resample, Rev1.resample. rewrite resample_loop_same. reflexivity.
Qed.

(** With all draws inside the vector, the drawing loop appends the drawn
    particles, one per draw. *)
Lemma resample_loop_draws weights_dist particlesCopy :
  (forall k, (weights_dist k < length particlesCopy)%nat) ->
  forall count par_index ps,
    exists drawn,
      Rev1.resample_loop weights_dist particlesCopy par_index count ps
      = Some (ps ++ drawn)
      /\ length drawn = count
      /\ (forall p, In p drawn ->
            exists k, nth_error particlesCopy (weights_dist k) = Some p).
Proof.
  intros Hin. induction count as [| count IH]; intros par_index ps.
  - exists []. cbn [Rev1.resample_loop]. rewrite app_nil_r.
    repeat split. intros p [].
  - cbn [Rev1.resample_loop].
    destruct (nth_error particlesCopy (weights_dist par_index)) as [p |] eqn:E.
    + cbn [bind]. destruct (IH (S par_index) (ps ++ [p])) as (drawn & H1 & H2 & H3).
      exists (p :: drawn). rewrite H1, <- app_assoc. repeat split.
      * simpl. congruence.
      * intros q [<- | Hq]; [exists par_index; exact E | apply H3; exact Hq].
    + exfalso. apply nth_error_None in E. specialize (Hin par_index). lia.
Qed.

(** [resample] is defined for a sampler of the weight distribution and
    returns as many particles as there were. *)
Lemma resample_rev1_length sampler pf :
  sampler_ok sampler (map p_weight (particles pf)) ->
  exists pf',
    Rev1.resample sampler pf = Some pf'
    /\ length (particles pf') = length (particles pf)
    /\ num_particles pf' = num_particles pf.
Proof.
  intros Hs. unfold Rev1.resample.
  destruct (resample_loop_draws (sampler (map p_weight (particles pf)))
              (particles pf)) with (count := length (particles pf))
              (par_index := 0%nat) (ps := @nil Particle)
    as (drawn & H1 & H2 & _).
  { intros k. destruct (positive_probability_index _ _ (Hs k)) as [Hlt _].
    rewrite length_map in Hlt. exact Hlt. }
  rewrite H1. cbn [bind]. eexists. split; [reflexivity |].
  cbn [particles num_particles app]. split; [exact H2 | reflexivity].
Qed.

Lemma prediction_rev1_length gen delta_t std_pos velocity yaw_rate pf :
  length (particles (Rev1.prediction gen delta_t std_pos velocity yaw_rate pf))
  = length (particles pf).
Proof.
  exact (Forall2_same_length _ _ _
           (prediction_loop_rev1_frame gen delta_t std_pos velocity yaw_rate
              (particles pf) 0)).
Qed.

Lemma prediction_rev2_length gen delta_t std_pos velocity yaw_rate pf :
  length (particles (Rev2.prediction gen delta_t std_pos velocity yaw_rate pf))
  = length (particles pf).
Proof.
  exact (Forall2_same_length _ _ _
           (prediction_loop_rev2_frame gen delta_t std_pos velocity yaw_rate
              (particles pf) 0)).
Qed.

(** C9, as the code has it: after [init] on a filter without particles the
    vector holds [num_particles] particles (100 in the first revision, 200
    in the second); [prediction], [updateWeights] (where it is defined) and
    [resample] (for a sampler of the weight distribution) keep that; a
    second [init] appends [num_particles] more particles, so the vector
    then holds twice [num_particles]. *)
Theorem particle_count_invariant :
  forall gen x y theta std pf,
    particles pf = [] ->
    (count_ok (Rev1.init gen x y theta std pf)
     /\ count_ok (Rev2.init gen x y theta std pf))
    /\ (forall gen' delta_t std_pos velocity yaw_rate q,
          count_ok q ->
          count_ok (Rev1.prediction gen' delta_t std_pos velocity yaw_rate q)
          /\ count_ok (Rev2.prediction gen' delta_t std_pos velocity yaw_rate q))
    /\ (forall sensor_range std_landmark observations map_landmarks q q',
          count_ok q ->
          Rev1.updateWeights sensor_range std_landmark observations
            map_landmarks q = Some q' ->
          count_ok q')
    /\ (forall sensor_range std_landmark observations map_landmarks q q',
          count_ok q ->
          Rev2.updateWeights sensor_range std_landmark observations
            map_landmarks q = Some q' ->
          count_ok q')
    /\ (forall sampler q,
          count_ok q ->
          sampler_ok sampler (map p_weight (particles q)) ->
          exists q',
            Rev1.resample sampler q = Some q'
            /\ Rev2.resample sampler q = Some q' /\ count_ok q')
    /\ (forall gen',
          length (particles (Rev1.init gen' x y theta std
                               (Rev1.init gen x y theta std pf))) = 200%nat
          /\ num_particles (Rev1.init gen' x y theta std
                              (Rev1.init gen x y theta std pf)) = 100%Z)
    /\ (forall gen',
          length (particles (Rev2.init gen' x y theta std
                               (Rev2.init gen x y theta std pf))) = 400%nat
          /\ num_particles (Rev2.init gen' x y theta std
                              (Rev2.init gen x y theta std pf)) = 200%Z).
Proof.
  intros gen x y theta std pf Hfresh.
  split; [| split; [| split; [| split; [| split; [| split]]]]].
  - unfold count_ok. rewrite init_rev1_length, init_rev2_length, Hfresh.
    split; reflexivity.
  - intros gen' delta_t std_pos velocity yaw_rate q Hq. unfold count_ok in *.
    rewrite prediction_rev1_length, prediction_rev2_length.
    split; exact Hq.
  - intros sensor_range std_landmark observations map_landmarks q q' Hq H.
    unfold Rev1.updateWeights in H.
    destruct (Rev1.updateWeights_loop _ _ _ _ (particles q)) as [ps |] eqn:E;
      [| discriminate].
    cbn [bind] in H. injection H as <-. unfold count_ok in *. cbn [particles num_particles].
    rewrite (updateWeights_loop_rev1_length _ _ _ _ _ _ E). exact Hq.
  - intros sensor_range std_landmark observations map_landmarks q q' Hq H.
    unfold Rev2.updateWeights in H.
    destruct (Rev2.updateWeights_loop _ _ _ _ (particles q)) as [ps |] eqn:E;
      [| discriminate].
    cbn [bind] in H. injection H as <-. unfold count_ok in *. cbn [particles num_particles].
    rewrite (updateWeights_loop_rev2_length _ _ _ _ _ _ E). exact Hq.
  - intros sampler q Hq Hs.
    destruct (resample_rev1_length sampler q Hs) as (q' & H1 & H2 & H3).
    exists q'. split; [exact H1 |]. split.
    + rewrite <- H1. apply resample_same.
    + unfold count_ok in *. rewrite H2, H3. exact Hq.
  - intros gen'. split; [| reflexivity].
    rewrite !init_rev1_length, Hfresh. reflexivity.
  - intros gen'. split; [| reflexivity].
    rewrite !init_rev2_length, Hfresh. reflexivity.
Qed.

Lemma particle_count_invariant_witness :
  count_ok (Rev1.init zero_gen 0 0 0 (0, 0, 0) fresh_filter)
  /\ count_ok (Rev2.init zero_gen 0 0 0 (0, 0, 0) fresh_filter).
Proof.
  exact (proj1 (particle_count_invariant zero_gen 0 0 0 (0, 0, 0) fresh_filter
                  eq_refl)).
Defined.

(** C9 as stated fails for a repeated [init]: the second call appends
    another 100 particles instead of starting over, so the vector holds 200
    particles while [num_particles] is 100. *)
Lemma init_twice_grows :
  length (particles (Rev1.init zero_gen 0 0 0 (0, 0, 0)
                       (Rev1.init zero_gen 0 0 0 (0, 0, 0) fresh_filter)))
    = 200%nat
  /\ num_particles (Rev1.init zero_gen 0 0 0 (0, 0, 0)
                      (Rev1.init zero_gen 0 0 0 (0, 0, 0) fresh_filter))
    = 100%Z
  /\ ~ count_ok (Rev1.init zero_gen 0 0 0 (0, 0, 0)
                   (Rev1.init zero_gen 0 0 0 (0, 0, 0) fresh_filter)).
Proof.
  assert (L : length (particles (Rev1.init zero_gen 0 0 0 (0, 0, 0)
                       (Rev1.init zero_gen 0 0 0 (0, 0, 0) fresh_filter)))
              = 200%nat).
  { rewrite !init_rev1_length. reflexivity. }
  split; [exact L |]. split; [reflexivity |].
  unfold count_ok. rewrite L. cbn [num_particles Rev1.init]. discriminate.
Qed.

(** ** Resampling *)

(** For a weight vector whose only non-zero entry is at [i0], an index of
    positive probability is [i0]. *)
Lemma single_weight_draw (ws : list R) (i0 i : nat) :
  (forall j, j <> i0 -> nth j ws 0 = 0) ->
  0 < discrete_distribution ws i -> i = i0.
Proof.
  intros Hz Hp. destruct (positive_probability_index ws i Hp) as [_ Hn].
  destruct (Nat.eq_dec i i0) as [E | E]; [exact E |].
  exfalso. apply Hn. apply Hz. exact E.
Qed.

Lemma sum_weights_zero (ws : list R) :
  (forall j, nth j ws 0 = 0) -> sum_weights ws = 0.
Proof.
  induction ws as [| w ws IH]; intros Hall; [reflexivity |].
  cbn [sum_weights fold_right]. fold (sum_weights ws).
  rewrite IH; [| intros j; exact (Hall (S j))].
  pose proof (Hall 0%nat) as H0. cbn [nth] in H0. lra.
Qed.

Lemma sum_weights_single (ws : list R) (i0 : nat) :
  (forall j, j <> i0 -> nth j ws 0 = 0) ->
  sum_weights ws = nth i0 ws 0.
Proof.
  revert i0. induction ws as [| w ws IH]; intros i0 Hz.
  - destruct i0; reflexivity.
  - cbn [sum_weights fold_right]. fold (sum_weights ws). destruct i0 as [| i0].
    + cbn [nth]. rewrite sum_weights_zero; [lra |].
      intros j. apply (Hz (S j)). discriminate.
    + cbn [nth]. rewrite (IH i0); [| intros j Hj; apply (Hz (S j)); lia].
      pose proof (Hz 0%nat ltac:(discriminate)) as H0. cbn [nth] in H0. lra.
Qed.

Lemma resample_loop_repeat weights_dist particlesCopy i0 p0 :
  nth_error particlesCopy i0 = Some p0 ->
  (forall k, weights_dist k = i0) ->
  forall count par_index ps,
    Rev1.resample_loop weights_dist particlesCopy par_index count ps
    = Some (ps ++ repeat p0 count).
Proof.
  intros Hp Hd. induction count as [| count IH]; intros par_index ps.
  - cbn [Rev1.resample_loop repeat]. rewrite app_nil_r. reflexivity.
  - cbn [Rev1.resample_loop repeat]. rewrite Hd, Hp. cbn [bind].
    rewrite IH, <- app_assoc. reflexivity.
Qed.

Lemma nth_weights (ps : list Particle) (j : nat) :
  nth j (map p_weight ps) 0
  = match nth_error ps j with Some p => p_weight p | None => 0 end.
Proof.
  revert j. induction ps as [| p ps IH]; intros [| j]; simpl; auto.
Qed.

(** C8: the distribution [resample] draws from gives index [i] the mass
    weight[i] / (sum of the weights); when particle [i0] is the only one of
    positive weight and all others have weight zero, that mass is 1 at [i0]
    and 0 elsewhere, and the particle set after [resample] (either
    revision) consists of N copies of particle [i0]. *)
Theorem resample_single_positive_weight :
  forall sampler pf i0 p0,
    nth_error (particles pf) i0 = Some p0 ->
    0 < p_weight p0 ->
    (forall j p, nth_error (particles pf) j = Some p -> j <> i0 ->
                 p_weight p = 0) ->
    sampler_ok sampler (map p_weight (particles pf)) ->
    (forall i,
       discrete_distribution (map p_weight (particles pf)) i
       = nth i (map p_weight (particles pf)) 0
         / sum_weights (map p_weight (particles pf)))
    /\ discrete_distribution (map p_weight (particles pf)) i0 = 1
    /\ (forall j, j <> i0 ->
          discrete_distribution (map p_weight (particles pf)) j = 0)
    /\ Rev1.resample sampler pf
       = Some (mkFilter (num_particles pf) (is_initialized pf)
                 (repeat p0 (length (particles pf))))
    /\ Rev2.resample sampler pf
       = Some (mkFilter (num_particles pf) (is_initialized pf)
                 (repeat p0 (length (particles pf)))).
Proof.
  intros sampler pf i0 p0 Hp0 Hpos Hzero Hs.
  assert (Hz : forall j, j <> i0 -> nth j (map p_weight (particles pf)) 0 = 0).
  { intros j Hj. rewrite nth_weights.
    destruct (nth_error (particles pf) j) as [p |] eqn:E; [| reflexivity].
    exact (Hzero j p E Hj). }
  assert (H0 : nth i0 (map p_weight (particles pf)) 0 = p_weight p0).
  { rewrite nth_weights, Hp0. reflexivity. }
  assert (Hsum : sum_weights (map p_weight (particles pf)) = p_weight p0).
  { rewrite (sum_weights_single _ i0 Hz). exact H0. }
  assert (R1 : Rev1.resample sampler pf
               = Some (mkFilter (num_particles pf) (is_initialized pf)
                         (repeat p0 (length (particles pf))))).
  { unfold Rev1.resample.
    rewrite (resample_loop_repeat _ _ i0 p0 Hp0).
    - reflexivity.
    - intros k. apply (single_weight_draw _ _ _ Hz). apply Hs. }
  split; [reflexivity |]. split; [| split; [| split]].
  - unfold discrete_distribution. rewrite H0, Hsum. field. lra.
  - intros j Hj. unfold discrete_distribution. rewrite (Hz j Hj).
    unfold Rdiv. apply Rmult_0_l.
  - exact R1.
  - rewrite resample_same. exact R1.
Qed.

Lemma resample_single_positive_weight_witness :
  Rev1.resample (fun _ _ => 1%nat) (sample_filter [0; 1; 0])
  = Some (mkFilter 3 true (repeat (sample_particle 1) 3))
  /\ Rev2.resample (fun _ _ => 1%nat) (sample_filter [0; 1; 0])
  = Some (mkFilter 3 true (repeat (sample_particle 1) 3)).
Proof.
  refine (proj2 (proj2 (proj2
    (resample_single_positive_weight (fun _ _ => 1%nat)
       (sample_filter [0; 1; 0]) 1%nat (sample_particle 1) eq_refl _ _ _)))).
  - simpl. exact Rlt_0_1.
  - intros [| [| [| j]]] p H Hj; simpl in H.
    + injection H as <-. reflexivity.
    + exfalso. apply Hj. reflexivity.
    + injection H as <-. reflexivity.
    + destruct j; discriminate H.
  - intros k. unfold discrete_distribution, sum_weights. simpl.
    replace (1 / (0 + (1 + (0 + 0)))) with 1 by (field; lra).
    exact Rlt_0_1.
Defined.

(** ** Landmark association *)

(** The loop of the second revision either never assigns, all landmarks
    being farther than [minDistance], or ends on the last nearest one. *)
Lemma closest_loop_spec (o : LandmarkObs) :
  forall lms i0 minDistance indexOfLandmark,
    (Rev2.closest_loop o lms i0 minDistance indexOfLandmark = indexOfLandmark
     /\ forall lm, In lm lms -> minDistance < landmark_distance lm o)
    \/ exists k lm,
         Rev2.closest_loop o lms i0 minDistance indexOfLandmark
         = Some (i0 + k)%nat
         /\ nth_error lms k = Some lm
         /\ landmark_distance lm o <= minDistance
         /\ forall j lm', nth_error lms j = Some lm' ->
              landmark_distance lm o <= landmark_distance lm' o
              /\ (landmark_distance lm' o = landmark_distance lm o ->
                  (j <= k)%nat).
Proof.
  induction lms as [| lm rest IH]; intros i0 minD idx.
  - left. split; [reflexivity | intros lm []].
  - cbn [Rev2.closest_loop].
    change (dist (x_f lm) (y_f lm) (obs_x o) (obs_y o))
      with (landmark_distance lm o).
    destruct (Rle_dec (landmark_distance lm o) minD) as [Hle | Hgt].
    + rewrite (Rleb_true _ _ Hle).
      destruct (IH (S i0) (landmark_distance lm o) (Some i0))
        as [[E Hall] | (k & lm1 & E & Hn & Hd & Hmin)].
      * right. exists 0%nat, lm. rewrite E, Nat.add_0_r.
        split; [reflexivity |]. split; [reflexivity |]. split; [exact Hle |].
        intros [| j] lm' Hj; cbn [nth_error] in Hj.
        -- injection Hj as <-. split; [lra | intros _; lia].
        -- apply nth_error_In in Hj. specialize (Hall _ Hj).
           split; [lra | intros Heq; lra].
      * right. exists (S k), lm1. rewrite E.
        split; [f_equal; lia |]. split; [exact Hn |]. split; [lra |].
        intros [| j] lm' Hj; cbn [nth_error] in Hj.
        -- injection Hj as <-. split; [exact Hd | intros _; lia].
        -- destruct (Hmin j lm' Hj) as [H1 H2].
           split; [exact H1 | intros Heq; specialize (H2 Heq); lia].
    + rewrite (Rleb_false _ _ Hgt).
      destruct (IH (S i0) minD idx)
        as [[E Hall] | (k & lm1 & E & Hn & Hd & Hmin)].
      * left. split; [exact E |].
        intros lm' [<- | Hin]; [lra | apply Hall; exact Hin].
      * right. exists (S k), lm1. rewrite E.
        split; [f_equal; lia |]. split; [exact Hn |]. split; [exact Hd |].
        intros [| j] lm' Hj; cbn [nth_error] in Hj.
        -- injection Hj as <-. split; [lra | intros Heq; lra].
        -- destruct (Hmin j lm' Hj) as [H1 H2].
           split; [exact H1 | intros Heq; specialize (H2 Heq); lia].
Qed.

(** The loop of the first revision, which skips the landmarks out of
    sensor range. *)
Lemma dataAssociation_loop_spec (sensor_range : R) (o : LandmarkObs) :
  forall lms i0 minDistance indexOfLandmark,
    (Rev1.dataAssociation_loop sensor_range o lms i0 minDistance
       indexOfLandmark = indexOfLandmark
     /\ forall lm, In lm lms ->
          ~ (landmark_distance lm o <= sensor_range
             /\ landmark_distance lm o <= minDistance))
    \/ exists k lm,
         Rev1.dataAssociation_loop sensor_range o lms i0 minDistance
           indexOfLandmark = (i0 + k)%nat
         /\ nth_error lms k = Some lm
         /\ landmark_distance lm o <= sensor_range
         /\ landmark_distance lm o <= minDistance
         /\ forall j lm', nth_error lms j = Some lm' ->
              landmark_distance lm' o <= sensor_range ->
              landmark_distance lm o <= landmark_distance lm' o
              /\ (landmark_distance lm' o = landmark_distance lm o ->
                  (j <= k)%nat).
Proof.
  induction lms as [| lm rest IH]; intros i0 minD idx.
  - left. split; [reflexivity | intros lm []].
  - cbn [Rev1.dataAssociation_loop].
    change (dist (x_f lm) (y_f lm) (obs_x o) (obs_y o))
      with (landmark_distance lm o).
    assert (Hskip :
      ~ (landmark_distance lm o <= sensor_range
         /\ landmark_distance lm o <= minD) ->
      (Rev1.dataAssociation_loop sensor_range o rest (S i0) minD idx = idx
       /\ forall lm0, In lm0 (lm :: rest) ->
            ~ (landmark_distance lm0 o <= sensor_range
               /\ landmark_distance lm0 o <= minD))
      \/ exists k lm1,
           Rev1.dataAssociation_loop sensor_range o rest (S i0) minD idx
           = (i0 + k)%nat
           /\ nth_error (lm :: rest) k = Some lm1
           /\ landmark_distance lm1 o <= sensor_range
           /\ landmark_distance lm1 o <= minD
           /\ forall j lm', nth_error (lm :: rest) j = Some lm' ->
                landmark_distance lm' o <= sensor_range ->
                landmark_distance lm1 o <= landmark_distance lm' o
                /\ (landmark_distance lm' o = landmark_distance lm1 o ->
                    (j <= k)%nat)).
    { intros Hno.
      destruct (IH (S i0) minD idx)
        as [[E Hall] | (k & lm1 & E & Hn & Hr & Hd & Hmin)].
      - left. split; [exact E |].
        intros lm' [<- | Hin]; [exact Hno | apply Hall; exact Hin].
      - right. exists (S k), lm1. rewrite E.
        split; [lia |]. split; [exact Hn |]. split; [exact Hr |].
        split; [exact Hd |].
        intros [| j] lm' Hj Hrange; cbn [nth_error] in Hj.
        + injection Hj as <-.
          assert (minD < landmark_distance lm o) by
            (destruct (Rle_dec (landmark_distance lm o) minD);
             [exfalso; apply Hno; split; assumption | lra]).
          split; [lra | intros Heq; lra].
        + destruct (Hmin j lm' Hj Hrange) as [H1 H2].
          split; [exact H1 | intros Heq; specialize (H2 Heq); lia]. }
    destruct (Rle_dec (landmark_distance lm o) sensor_range) as [Hr | Hr].
    + rewrite (Rleb_true _ _ Hr).
      destruct (Rle_dec (landmark_distance lm o) minD) as [Hle | Hgt].
      * rewrite (Rleb_true _ _ Hle).
        destruct (IH (S i0) (landmark_distance lm o) i0)
          as [[E Hall] | (k & lm1 & E & Hn & Hr1 & Hd & Hmin)].
        -- right. exists 0%nat, lm. rewrite E.
           split; [lia |]. split; [reflexivity |]. split; [exact Hr |].
           split; [exact Hle |].
           intros [| j] lm' Hj Hrange; cbn [nth_error] in Hj.
           ++ injection Hj as <-. split; [lra | intros _; lia].
           ++ apply nth_error_In in Hj. specialize (Hall _ Hj).
              assert (landmark_distance lm o < landmark_distance lm' o) by
                (destruct (Rle_dec (landmark_distance lm' o)
                             (landmark_distance lm o));
                 [exfalso; apply Hall; split; assumption | lra]).
              split; [lra | intros Heq; lra].
        -- right. exists (S k), lm1. rewrite E.
           split; [lia |]. split; [exact Hn |]. split; [exact Hr1 |].
           split; [lra |].
           intros [| j] lm' Hj Hrange; cbn [nth_error] in Hj.
           ++ injection Hj as <-. split; [exact Hd | intros _; lia].
           ++ destruct (Hmin j lm' Hj Hrange) as [H1 H2].
              split; [exact H1 | intros Heq; specialize (H2 Heq); lia].
      * rewrite (Rleb_false _ _ Hgt). apply Hskip. intros [_ H]. contradiction.
    + rewrite (Rleb_false _ _ Hr). apply Hskip. intros [H _]. contradiction.
Qed.

Lemma distance_east : landmark_distance landmark_east origin_obs = 1.
Proof. apply dist_eval; simpl; [lra | ring]. Qed.

Lemma distance_west : landmark_distance landmark_west origin_obs = 1.
Proof. apply dist_eval; simpl; [lra | ring]. Qed.

Lemma distance_far : landmark_distance landmark_far origin_obs = 3.
Proof. apply dist_eval; simpl; [lra | ring]. Qed.

(** First revision, all landmarks within sensor range of the observation:
    the index returned is that of the last nearest landmark. *)
Lemma dataAssociation_rev1_all_in_range (sensor_range : R)
    (landmarks : list single_landmark_s) (o : LandmarkObs) :
  landmarks <> [] ->
  (forall lm, In lm landmarks -> landmark_distance lm o <= DBL_MAX) ->
  (forall lm, In lm landmarks -> landmark_distance lm o <= sensor_range) ->
  nearest_last landmarks o
    (Rev1.dataAssociation sensor_range (mkMap landmarks) o).
Proof.
  intros Hne Hfin Hrange. unfold Rev1.dataAssociation.
  cbn [landmark_list].
  destruct (dataAssociation_loop_spec sensor_range o landmarks 0 DBL_MAX 0)
    as [[_ Hall] | (k & lm & Ek & Hn & _ & _ & Hmin)].
  - exfalso. destruct landmarks as [| lm0 lms]; [apply Hne; reflexivity |].
    apply (Hall lm0 (or_introl eq_refl)). split.
    + apply Hrange. left. reflexivity.
    + apply Hfin. left. reflexivity.
  - rewrite Ek. cbn [Nat.add]. exists lm. split; [exact Hn |].
    intros j lm' Hj. apply (Hmin j lm' Hj). apply Hrange.
    apply nth_error_In in Hj. exact Hj.
Qed.

(** C3, as the code has it: for a non-empty candidate sequence whose
    distances are finite doubles, the second revision associates every
    observation with a candidate at minimal Euclidean distance, and among
    several candidates at that distance with the one of largest index; the
    first revision returns the index of that same candidate when all
    candidates are within sensor range of the observation. *)
Theorem dataAssociation_nearest_last :
  forall landmarks observations,
    landmarks <> [] ->
    (forall lm o, In lm landmarks -> In o observations ->
                  landmark_distance lm o <= DBL_MAX) ->
    (exists associated,
        Rev2.dataAssociation landmarks observations = Some associated
        /\ Forall2 (associated_with landmarks) observations associated)
    /\ (forall sensor_range o,
          In o observations ->
          (forall lm, In lm landmarks ->
                      landmark_distance lm o <= sensor_range) ->
          nearest_last landmarks o
            (Rev1.dataAssociation sensor_range (mkMap landmarks) o)).
Proof.
  intros landmarks observations Hne Hfin. split.
  - induction observations as [| o rest IH].
    + exists []. split; [reflexivity | constructor].
    + destruct IH as (associated & E & HF).
      { intros lm o' Hlm Ho'. apply Hfin; [exact Hlm | right; exact Ho']. }
      cbn [Rev2.dataAssociation]. unfold Rev2.dataAssociation_body.
      destruct (closest_loop_spec o landmarks 0 DBL_MAX None)
        as [[_ Hall] | (k & lm & Ek & Hn & _ & Hmin)].
      * exfalso. destruct landmarks as [| lm0 lms]; [apply Hne; reflexivity |].
        specialize (Hall lm0 (or_introl eq_refl)).
        specialize (Hfin lm0 o (or_introl eq_refl) (or_introl eq_refl)). lra.
      * rewrite Ek. cbn [bind Nat.add]. rewrite Hn. cbn [bind]. rewrite E.
        cbn [bind]. eexists. split; [reflexivity |].
        constructor; [| exact HF].
        exists k, lm. split; [exact Hn |]. split; [| reflexivity].
        exists lm. split; [exact Hn | exact Hmin].
  - intros sensor_range o Ho Hrange.
    apply dataAssociation_rev1_all_in_range; [exact Hne | | exact Hrange].
    intros lm Hlm. apply Hfin; [exact Hlm | exact Ho].
Qed.

Lemma dataAssociation_nearest_last_witness :
  exists associated,
    Rev2.dataAssociation [landmark_east; landmark_west] [origin_obs]
    = Some associated
    /\ Forall2 (associated_with [landmark_east; landmark_west]) [origin_obs]
         associated.
Proof.
  refine (proj1 (dataAssociation_nearest_last [landmark_east; landmark_west]
                   [origin_obs] _ _)).
  - discriminate.
  - intros lm o [<- | [<- | []]] [<- | []].
    + rewrite distance_east. exact DBL_MAX_ge_1.
    + rewrite distance_west. exact DBL_MAX_ge_1.
Defined.

(** C3 as stated fails on a tie: with the candidates (1, 0) and (-1, 0),
    both at distance 1 from the observation (0, 0), both revisions return
    the second candidate (index 1), not the first. *)
Lemma dataAssociation_tie_takes_last :
  landmark_distance landmark_east origin_obs = 1
  /\ landmark_distance landmark_west origin_obs = 1
  /\ Rev2.dataAssociation [landmark_east; landmark_west] [origin_obs]
     = Some [mkLandmarkObs 2 (-1) 0]
  /\ Rev1.dataAssociation 50 (mkMap [landmark_east; landmark_west]) origin_obs
     = 1%nat.
Proof.
  split; [exact distance_east |]. split; [exact distance_west |]. split.
  - cbn [Rev2.dataAssociation]. unfold Rev2.dataAssociation_body.
    cbn [Rev2.closest_loop].
    change (dist (x_f landmark_east) (y_f landmark_east)
              (obs_x origin_obs) (obs_y origin_obs))
      with (landmark_distance landmark_east origin_obs).
    change (dist (x_f landmark_west) (y_f landmark_west)
              (obs_x origin_obs) (obs_y origin_obs))
      with (landmark_distance landmark_west origin_obs).
    rewrite distance_east, distance_west.
    rewrite (Rleb_true 1 DBL_MAX DBL_MAX_ge_1).
    rewrite (Rleb_true 1 1 (Rle_refl 1)). reflexivity.
  - unfold Rev1.dataAssociation. cbn [landmark_list Rev1.dataAssociation_loop].
    change (dist (x_f landmark_east) (y_f landmark_east)
              (obs_x origin_obs) (obs_y origin_obs))
      with (landmark_distance landmark_east origin_obs).
    change (dist (x_f landmark_west) (y_f landmark_west)
              (obs_x origin_obs) (obs_y origin_obs))
      with (landmark_distance landmark_west origin_obs).
    rewrite distance_east, distance_west.
    rewrite (Rleb_true 1 50) by lra.
    rewrite (Rleb_true 1 DBL_MAX DBL_MAX_ge_1).
    rewrite (Rleb_true 1 1 (Rle_refl 1)). reflexivity.
Qed.

(** The index the second revision selects is a function of the distances
    alone. *)
Lemma closest_loop_distances (o o' : LandmarkObs) :
  forall lms lms' i0 minDistance indexOfLandmark,
    map (fun lm => landmark_distance lm o) lms
    = map (fun lm => landmark_distance lm o') lms' ->
    Rev2.closest_loop o lms i0 minDistance indexOfLandmark
    = Rev2.closest_loop o' lms' i0 minDistance indexOfLandmark.
Proof.
  induction lms as [| lm rest IH]; intros [| lm' rest'] i0 minD idx H;
    cbn [map] in H; try discriminate H.
  - reflexivity.
  - injection H as Hd Hrest. cbn [Rev2.closest_loop].
    change (dist (x_f lm) (y_f lm) (obs_x o) (obs_y o))
      with (landmark_distance lm o).
    change (dist (x_f lm') (y_f lm') (obs_x o') (obs_y o'))
      with (landmark_distance lm' o').
    rewrite Hd.
    destruct (Rleb (landmark_distance lm' o') minD); apply IH; exact Hrest.
Qed.

(** C6, as the code has it: the association of the second revision takes
    no sensor range, and the index it selects depends only on the distances
    between the candidates and the observation; the association of the
    first revision filters by sensor range itself: it returns the last
    nearest landmark among those within sensor range of the observation,
    and index 0 when no landmark is within range. *)
Theorem dataAssociation_range_filtering :
  (forall o o' lms lms',
     map (fun lm => landmark_distance lm o) lms
     = map (fun lm => landmark_distance lm o') lms' ->
     Rev2.closest_loop o lms 0 DBL_MAX None
     = Rev2.closest_loop o' lms' 0 DBL_MAX None)
  /\ (forall sensor_range landmarks o,
        (Rev1.dataAssociation sensor_range landmarks o = 0%nat
         /\ forall lm, In lm (landmark_list landmarks) ->
              ~ (landmark_distance lm o <= sensor_range
                 /\ landmark_distance lm o <= DBL_MAX))
        \/ nearest_last_in_range sensor_range (landmark_list landmarks) o
             (Rev1.dataAssociation sensor_range landmarks o)).
Proof.
  split.
  - intros o o' lms lms' H. apply closest_loop_distances. exact H.
  - intros sensor_range landmarks o. unfold Rev1.dataAssociation.
    destruct (dataAssociation_loop_spec sensor_range o
                (landmark_list landmarks) 0 DBL_MAX 0)
      as [[E Hall] | (k & lm & Ek & Hn & Hr & _ & Hmin)].
    + left. split; [exact E | exact Hall].
    + right. rewrite Ek. cbn [Nat.add]. exists lm.
      split; [exact Hn |]. split; [exact Hr | exact Hmin].
Qed.

(** C6 as stated fails for the first revision: for the same candidates
    (3, 0), (1, 0) and the same observation (0, 0), the index returned
    changes with the sensor range, and with range 1/2 it is the index of
    the farther candidate. *)
Lemma dataAssociation_rev1_depends_on_range :
  Rev1.dataAssociation 2 (mkMap [landmark_far; landmark_east]) origin_obs
  = 1%nat
  /\ Rev1.dataAssociation (1 / 2) (mkMap [landmark_far; landmark_east])
       origin_obs = 0%nat
  /\ landmark_distance landmark_east origin_obs
     < landmark_distance landmark_far origin_obs.
Proof.
  assert (H100 := DBL_MAX_ge_100).
  split; [| split].
  - unfold Rev1.dataAssociation. cbn [landmark_list Rev1.dataAssociation_loop].
    change (dist (x_f landmark_east) (y_f landmark_east)
              (obs_x origin_obs) (obs_y origin_obs))
      with (landmark_distance landmark_east origin_obs).
    change (dist (x_f landmark_far) (y_f landmark_far)
              (obs_x origin_obs) (obs_y origin_obs))
      with (landmark_distance landmark_far origin_obs).
    rewrite distance_east, distance_far.
    rewrite (Rleb_false 3 2) by lra.
    rewrite (Rleb_true 1 2) by lra.
    rewrite (Rleb_true 1 DBL_MAX) by lra. reflexivity.
  - unfold Rev1.dataAssociation. cbn [landmark_list Rev1.dataAssociation_loop].
    change (dist (x_f landmark_east) (y_f landmark_east)
              (obs_x origin_obs) (obs_y origin_obs))
      with (landmark_distance landmark_east origin_obs).
    change (dist (x_f landmark_far) (y_f landmark_far)
              (obs_x origin_obs) (obs_y origin_obs))
      with (landmark_distance landmark_far origin_obs).
    rewrite distance_east, distance_far.
    rewrite (Rleb_false 3 (1 / 2)) by lra.
    rewrite (Rleb_false 1 (1 / 2)) by lra. reflexivity.
  - rewrite distance_east, distance_far. lra.
Qed.

(** ** The weight update *)

(** The loop of the second revision multiplies the densities of the pairs
    onto its start value. *)
Lemma multi_gaussian_loop_product (std_landmark : R * R) :
  forall pairs w,
    Rev2.multi_gaussian_loop std_landmark pairs w
    = w * fold_right Rmult 1
            (map (fun ac =>
                    multi_gaussian_term (fst std_landmark) (snd std_landmark)
                      (obs_x (fst ac) - obs_x (snd ac))
                      (obs_y (fst ac) - obs_y (snd ac))) pairs).
Proof.
  induction pairs as [| [a c] rest IH]; intros w;
    cbn [Rev2.multi_gaussian_loop map fold_right fst snd].
  - ring.
  - rewrite IH. ring.
Qed.

(** Second revision: the new weight of a particle does not depend on the
    weight it had. *)
Lemma updateWeights_body_rev2_ignores_weight sensor_range std_landmark
    observations map_landmarks p w :
  Rev2.updateWeights_body sensor_range std_landmark observations map_landmarks
    (set_weight p w)
  = Rev2.updateWeights_body sensor_range std_landmark observations
      map_landmarks p.
Proof. reflexivity. Qed.

Lemma updateWeights_loop_rev2_ignores_weights sensor_range std_landmark
    observations map_landmarks :
  forall ps ps',
    Forall2 (fun p p' => exists w, p' = set_weight p w) ps ps' ->
    Rev2.updateWeights_loop sensor_range std_landmark observations
      map_landmarks ps'
    = Rev2.updateWeights_loop sensor_range std_landmark observations
        map_landmarks ps.
Proof.
  induction 1 as [| p p' ps ps' [w ->] _ IH]; cbn [Rev2.updateWeights_loop].
  - reflexivity.
  - rewrite updateWeights_body_rev2_ignores_weight, IH. reflexivity.
Qed.

(** Second revision: where the update of a particle is defined, the new
    weight is the product of the densities of the associated landmarks and
    the transformed observations. *)
Lemma updateWeights_body_rev2_weight sensor_range std_landmark observations
    map_landmarks p p' :
  Rev2.updateWeights_body sensor_range std_landmark observations map_landmarks
    p = Some p' ->
  exists associated,
    Rev2.dataAssociation
      (Rev2.predicted_landmarks sensor_range map_landmarks p)
      (map (fun o => Rev2.convertVehicleToMapCoords o p) observations)
    = Some associated
    /\ p_weight p'
       = fold_right Rmult 1
           (map (fun ac =>
                   multi_gaussian_term (fst std_landmark) (snd std_landmark)
                     (obs_x (fst ac) - obs_x (snd ac))
                     (obs_y (fst ac) - obs_y (snd ac)))
              (combine associated
                 (map (fun o => Rev2.convertVehicleToMapCoords o p)
                    observations))).
Proof.
  unfold Rev2.updateWeights_body. intros H.
  destruct (Rev2.dataAssociation _ _) as [associated |]; [| discriminate H].
  cbn [bind] in H. injection H as <-. exists associated.
  split; [reflexivity |]. cbn [set_weight p_weight].
  rewrite multi_gaussian_loop_product. ring.
Qed.

(** Second revision: without observations every weight becomes 1. *)
Lemma updateWeights_rev2_no_observations sensor_range std_landmark
    map_landmarks pf :
  Rev2.updateWeights sensor_range std_landmark [] map_landmarks pf
  = Some (mkFilter (num_particles pf) (is_initialized pf)
            (map (fun p => set_weight p 1) (particles pf))).
Proof.
  unfold Rev2.updateWeights.
  assert (E : forall ps,
             Rev2.updateWeights_loop sensor_range std_landmark []
               map_landmarks ps
             = Some (map (fun p => set_weight p 1) ps)).
  { induction ps as [| p ps IH]; cbn [Rev2.updateWeights_loop map].
    - reflexivity.
    - rewrite IH. reflexivity. }
  rewrite E. reflexivity.
Qed.

(** First revision: without observations the particles stay as they are,
    weights included. *)
Lemma updateWeights_rev1_no_observations sensor_range std_landmark
    map_landmarks pf :
  Rev1.updateWeights sensor_range std_landmark [] map_landmarks pf
  = Some (mkFilter (num_particles pf) (is_initialized pf) (particles pf)).
Proof.
  unfold Rev1.updateWeights.
  assert (E : forall ps,
             Rev1.updateWeights_loop sensor_range std_landmark []
               map_landmarks ps = Some ps).
  { induction ps as [| p ps IH]; cbn [Rev1.updateWeights_loop Rev1.updateWeights_obs bind].
    - reflexivity.
    - rewrite IH. reflexivity. }
  rewrite E. reflexivity.
Qed.

Lemma convert_rev1_origin (w : R) :
  Rev1.convertVehicleToMapCoords origin_obs (sample_particle w) = origin_obs.
Proof.
  unfold Rev1.convertVehicleToMapCoords, set_obs_y, set_obs_x, origin_obs,
    sample_particle.
  cbn [obs_id obs_x obs_y p_x p_y p_theta]. f_equal; ring.
Qed.

Lemma convert_rev2_origin (w : R) :
  Rev2.convertVehicleToMapCoords origin_obs (sample_particle w) = origin_obs.
Proof.
  unfold Rev2.convertVehicleToMapCoords, origin_obs, sample_particle.
  cbn [obs_id obs_x obs_y p_x p_y p_theta]. f_equal; ring.
Qed.

Lemma distance_origin : landmark_distance landmark_origin origin_obs = 0.
Proof. apply dist_eval; simpl; [lra | ring]. Qed.

(** The density at its peak, for unit standard deviations. *)
Lemma multi_gaussian_peak : multi_gaussian_term 1 1 (0 - 0) (0 - 0) = 1 / (2 * PI).
Proof.
  unfold multi_gaussian_term.
  replace (- ((0 - 0) * (0 - 0) / (2 * (1 * 1))
              + (0 - 0) * (0 - 0) / (2 * (1 * 1)))) with 0 by (field; lra).
  rewrite exp_0. field. exact PI_neq0.
Qed.

(** First revision, one particle at the origin with weight [w], one
    observation that falls on the only landmark: the new weight is [w]
    times the peak density. *)
Lemma updateWeights_rev1_at_peak (w : R) :
  Rev1.updateWeights 1 (1, 1) [origin_obs] origin_map (sample_filter [w])
  = Some (sample_filter [w / (2 * PI)]).
Proof.
  assert (H100 := DBL_MAX_ge_100).
  unfold Rev1.updateWeights, sample_filter.
  cbn [map particles Rev1.updateWeights_loop Rev1.updateWeights_obs].
  rewrite convert_rev1_origin. unfold Rev1.dataAssociation, origin_map.
  cbn [landmark_list Rev1.dataAssociation_loop].
  change (dist (x_f landmark_origin) (y_f landmark_origin)
            (obs_x origin_obs) (obs_y origin_obs))
    with (landmark_distance landmark_origin origin_obs).
  rewrite distance_origin.
  rewrite (Rleb_true 0 1) by lra. rewrite (Rleb_true 0 DBL_MAX) by lra.
  cbn [nth_error bind fst snd].
  unfold landmark_origin, origin_obs. cbn [x_f y_f obs_x obs_y].
  rewrite multi_gaussian_peak.
  unfold set_weight, sample_particle.
  cbn [p_id p_x p_y p_theta p_weight p_associations p_sense_x p_sense_y
       num_particles is_initialized length].
  replace (w * (1 / (2 * PI))) with (w / (2 * PI))
    by (field; exact PI_neq0).
  reflexivity.
Qed.

(** Second revision, same input: the new weight is the peak density. *)
Lemma updateWeights_rev2_at_peak (w : R) :
  Rev2.updateWeights 1 (1, 1) [origin_obs] origin_map (sample_filter [w])
  = Some (sample_filter [1 / (2 * PI)]).
Proof.
  assert (H100 := DBL_MAX_ge_100).
  unfold Rev2.updateWeights, sample_filter.
  cbn [map particles Rev2.updateWeights_loop]. unfold Rev2.updateWeights_body.
  cbn [map]. rewrite convert_rev2_origin.
  unfold Rev2.predicted_landmarks, origin_map. cbn [landmark_list filter].
  assert (Hd : dist (p_x (sample_particle w)) (p_y (sample_particle w))
                 (x_f landmark_origin) (y_f landmark_origin) = 0).
  { apply dist_eval; simpl; [lra | ring]. }
  rewrite Hd. rewrite (Rleb_true 0 1) by lra.
  cbn [Rev2.dataAssociation]. unfold Rev2.dataAssociation_body.
  cbn [Rev2.closest_loop].
  change (dist (x_f landmark_origin) (y_f landmark_origin)
            (obs_x origin_obs) (obs_y origin_obs))
    with (landmark_distance landmark_origin origin_obs).
  rewrite distance_origin. rewrite (Rleb_true 0 DBL_MAX) by lra.
  cbn [bind nth_error combine Rev2.multi_gaussian_loop fst snd].
  unfold landmark_origin, origin_obs. cbn [x_f y_f obs_x obs_y].
  rewrite multi_gaussian_peak.
  unfold set_weight, sample_particle.
  cbn [p_id p_x p_y p_theta p_weight p_associations p_sense_x p_sense_y
       num_particles is_initialized length].
  replace (1 * (1 / (2 * PI))) with (1 / (2 * PI))
    by (field; exact PI_neq0).
  reflexivity.
Qed.

(** C2 (first revision, one particle at the origin, sensor range 1, unit
    standard deviations, one observation (0, 0), one landmark at (0, 0)):
    the product of the densities is 1/(2 PI), and a particle of prior
    weight 1 gets that weight; the same call repeated on the result, where
    the particle now carries the prior weight 1/(2 PI), gives it the weight
    (1/(2 PI))/(2 PI): the new weight is the prior weight times the product
    of the densities.  The second revision gives 1/(2 PI) again. *)
Theorem updateWeights_rev1_accumulates :
  Rev1.updateWeights 1 (1, 1) [origin_obs] origin_map (sample_filter [1])
  = Some (sample_filter [1 / (2 * PI)])
  /\ Rev1.updateWeights 1 (1, 1) [origin_obs] origin_map
       (sample_filter [1 / (2 * PI)])
     = Some (sample_filter [1 / (2 * PI) / (2 * PI)])
  /\ 1 / (2 * PI) / (2 * PI) <> 1 / (2 * PI)
  /\ Rev2.updateWeights 1 (1, 1) [origin_obs] origin_map
       (sample_filter [1 / (2 * PI)])
     = Some (sample_filter [1 / (2 * PI)]).
Proof.
  split; [apply updateWeights_rev1_at_peak |].
  split; [apply updateWeights_rev1_at_peak |].
  split; [| apply updateWeights_rev2_at_peak].
  assert (Hpi := PI_RGT_0). assert (Hpi2 := PI2_3_2). unfold PI2 in Hpi2.
  intros H.
  assert (H' : 1 / (2 * PI) / (2 * PI) * (2 * PI * (2 * PI))
               = 1 / (2 * PI) * (2 * PI * (2 * PI)))
    by (rewrite H; reflexivity).
  field_simplify in H'; lra.
Qed.

(** C7 (first revision): after the update above has given the particle the
    weight 1/(2 PI), an update with an empty observation list leaves that
    weight in place, and it is not 1.  The second revision resets it
    to 1. *)
Theorem updateWeights_rev1_empty_keeps_weight :
  Rev1.updateWeights 1 (1, 1) [origin_obs] origin_map (sample_filter [1])
  = Some (sample_filter [1 / (2 * PI)])
  /\ Rev1.updateWeights 1 (1, 1) [] origin_map (sample_filter [1 / (2 * PI)])
     = Some (sample_filter [1 / (2 * PI)])
  /\ 1 / (2 * PI) <> 1
  /\ Rev2.updateWeights 1 (1, 1) [] origin_map (sample_filter [1 / (2 * PI)])
     = Some (sample_filter [1]).
Proof.
  split; [apply updateWeights_rev1_at_peak |].
  split; [apply updateWeights_rev1_no_observations |].
  split; [| apply updateWeights_rev2_no_observations].
  assert (Hpi := PI_RGT_0). assert (Hpi2 := PI2_3_2). unfold PI2 in Hpi2.
  intros H.
  assert (H' : 1 / (2 * PI) * (2 * PI) = 1 * (2 * PI))
    by (rewrite H; reflexivity).
  field_simplify in H'; lra.
Qed.

(** ** The two revisions of the weight update compared *)

(** Filtering keeps the order: an element that passes the filter is found
    in the filtered list, and what follows it there comes from later
    positions of the original list. *)
Lemma filter_keeps_order {A : Type} (f : A -> bool) :
  forall (l : list A) k a,
    nth_error l k = Some a -> f a = true ->
    exists j,
      nth_error (filter f l) j = Some a
      /\ forall j' x, nth_error (filter f l) j' = Some x -> (j < j')%nat ->
           exists i', (k < i')%nat /\ nth_error l i' = Some x.
Proof.
  induction l as [| x l IH]; intros k a Hk Hf.
  - destruct k; discriminate Hk.
  - destruct k as [| k]; cbn [nth_error] in Hk.
    + injection Hk as ->. cbn [filter]. rewrite Hf. exists 0%nat.
      split; [reflexivity |].
      intros [| j'] y Hy Hlt; [lia |]. cbn [nth_error] in Hy.
      apply nth_error_In in Hy. apply filter_In in Hy. destruct Hy as [Hy _].
      destruct (In_nth_error _ _ Hy) as [i Hi].
      exists (S i). split; [lia | exact Hi].
    + destruct (IH k a Hk Hf) as (j & Hj & Hafter). cbn [filter].
      destruct (f x).
      * exists (S j). split; [exact Hj |].
        intros [| j'] y Hy Hlt; [lia |]. cbn [nth_error] in Hy.
        destruct (Hafter j' y Hy) as (i' & Hi1 & Hi2); [lia |].
        exists (S i'). split; [lia | exact Hi2].
      * exists j. split; [exact Hj |].
        intros j' y Hy Hlt.
        destruct (Hafter j' y Hy Hlt) as (i' & Hi1 & Hi2).
        exists (S i'). split; [lia | exact Hi2].
Qed.

(** First revision: when the last nearest landmark of the map is within
    sensor range of the observation, its index is returned. *)
Lemma dataAssociation_rev1_selects (sensor_range : R)
    (lms : list single_landmark_s) (c : LandmarkObs) (k : nat)
    (lm : single_landmark_s) :
  sensor_range <= DBL_MAX ->
  nth_error lms k = Some lm ->
  nearest_last lms c k ->
  landmark_distance lm c <= sensor_range ->
  Rev1.dataAssociation sensor_range (mkMap lms) c = k.
Proof.
  intros Hmax Hn (lm0 & Hn0 & Hnl) Hr.
  rewrite Hn in Hn0. injection Hn0 as <-.
  unfold Rev1.dataAssociation. cbn [landmark_list].
  destruct (dataAssociation_loop_spec sensor_range c lms 0 DBL_MAX 0)
    as [[_ Hall] | (k' & lm' & E & Hn' & Hr' & _ & Hmin)].
  - exfalso. apply (Hall lm); [apply nth_error_In in Hn; exact Hn |].
    split; lra.
  - rewrite E. cbn [Nat.add].
    destruct (Hmin k lm Hn Hr) as [A1 A2].
    destruct (Hnl k' lm' Hn') as [B1 B2].
    assert (T : landmark_distance lm c = landmark_distance lm' c) by lra.
    specialize (A2 T). specialize (B2 (eq_sym T)). lia.
Qed.

(** Second revision: when the last nearest landmark of the map passes the
    filter of the caller, it is the landmark associated. *)
Lemma dataAssociation_rev2_selects (f : single_landmark_s -> bool)
    (lms : list single_landmark_s) (c : LandmarkObs) (k : nat)
    (lm : single_landmark_s) :
  nth_error lms k = Some lm ->
  nearest_last lms c k ->
  f lm = true ->
  landmark_distance lm c <= DBL_MAX ->
  Rev2.dataAssociation_body (filter f lms) c
  = Some (mkLandmarkObs (id_i lm) (x_f lm) (y_f lm)).
Proof.
  intros Hn (lm0 & Hn0 & Hnl) Hf Hfin.
  rewrite Hn in Hn0. injection Hn0 as <-.
  destruct (filter_keeps_order f lms k lm Hn Hf) as (j & Hj & Hafter).
  unfold Rev2.dataAssociation_body.
  destruct (closest_loop_spec c (filter f lms) 0 DBL_MAX None)
    as [[_ Hall] | (k2 & lm2 & E & Hn2 & _ & Hmin)].
  - exfalso. apply nth_error_In in Hj. specialize (Hall lm Hj). lra.
  - rewrite E. cbn [bind Nat.add]. rewrite Hn2. cbn [bind].
    destruct (Hmin j lm Hj) as [A1 A2].
    assert (Hin2 : In lm2 lms).
    { apply nth_error_In in Hn2. apply filter_In in Hn2. exact (proj1 Hn2). }
    destruct (In_nth_error _ _ Hin2) as [i2 Hi2].
    destruct (Hnl i2 lm2 Hi2) as [B1 _].
    assert (T : landmark_distance lm c = landmark_distance lm2 c) by lra.
    specialize (A2 T).
    destruct (Nat.eq_dec j k2) as [<- | Hne].
    + rewrite Hj in Hn2. injection Hn2 as <-. reflexivity.
    + exfalso. destruct (Hafter k2 lm2 Hn2) as (i' & Hi1 & Hi3); [lia |].
      destruct (Hnl i' lm2 Hi3) as [_ C2]. specialize (C2 (eq_sym T)). lia.
Qed.

(** The inner loop of the first revision, started at weight [w], computes
    what the second revision computes from the start value [w]. *)
Lemma updateWeights_obs_agree sensor_range std_landmark lms p :
  sensor_range <= DBL_MAX ->
  forall observations,
    (forall o, In o observations ->
       Rev1.convertVehicleToMapCoords o p = Rev2.convertVehicleToMapCoords o p
       /\ exists k lm,
            nth_error lms k = Some lm
            /\ nearest_last lms (Rev2.convertVehicleToMapCoords o p) k
            /\ landmark_distance lm (Rev2.convertVehicleToMapCoords o p)
               <= sensor_range
            /\ dist (p_x p) (p_y p) (x_f lm) (y_f lm) <= sensor_range) ->
    forall w,
      exists associated,
        Rev2.dataAssociation
          (Rev2.predicted_landmarks sensor_range (mkMap lms) p)
          (map (fun o => Rev2.convertVehicleToMapCoords o p) observations)
        = Some associated
        /\ Rev1.updateWeights_obs sensor_range std_landmark observations
             (mkMap lms) (set_weight p w)
           = Some (set_weight p
                     (Rev2.multi_gaussian_loop std_landmark
                        (combine associated
                           (map (fun o => Rev2.convertVehicleToMapCoords o p)
                              observations)) w)).
Proof.
  intros Hmax.
  induction observations as [| o rest IH]; intros Hr w.
  - exists []. split; reflexivity.
  - cbn [Rev1.updateWeights_obs map Rev2.dataAssociation].
    change (Rev1.convertVehicleToMapCoords o (set_weight p w))
      with (Rev1.convertVehicleToMapCoords o p).
    destruct (Hr o (or_introl eq_refl)) as (Hc & k & lm & Hn & Hnl & Ho & Hp).
    rewrite Hc.
    rewrite (dataAssociation_rev1_selects sensor_range lms _ k lm Hmax Hn
               Hnl Ho).
    cbn [landmark_list]. rewrite Hn. cbn [bind].
    unfold Rev2.predicted_landmarks at 1. cbn [landmark_list].
    rewrite (dataAssociation_rev2_selects _ lms _ k lm Hn Hnl).
    + cbn [bind].
      destruct (IH (fun o' Ho' => Hr o' (or_intror Ho'))
                  (w * multi_gaussian_term (fst std_landmark)
                         (snd std_landmark)
                         (x_f lm
                          - obs_x (Rev2.convertVehicleToMapCoords o p))
                         (y_f lm
                          - obs_y (Rev2.convertVehicleToMapCoords o p))))
        as (associated & E & E1).
      rewrite E. cbn [bind]. eexists. split; [reflexivity |].
      cbn [combine Rev2.multi_gaussian_loop].
      exact E1.
    + apply Rleb_true. exact Hp.
    + apply Rle_trans with sensor_range; assumption.
Qed.

Lemma set_weight_same (p : Particle) : set_weight p (p_weight p) = p.
Proof. destruct p. reflexivity. Qed.

Lemma updateWeights_particle_agree sensor_range std_landmark observations
    map_landmarks p :
  sensor_range <= DBL_MAX ->
  revisions_comparable sensor_range observations map_landmarks p ->
  exists p',
    Rev1.updateWeights_obs sensor_range std_landmark observations
      map_landmarks p = Some p'
    /\ Rev2.updateWeights_body sensor_range std_landmark observations
         map_landmarks p = Some p'.
Proof.
  destruct map_landmarks as [lms]. cbn [landmark_list].
  intros Hmax (Hw & Hr).
  destruct (updateWeights_obs_agree sensor_range std_landmark lms p Hmax
              observations Hr 1) as (associated & E & E1).
  rewrite <- Hw in E1 at 1. rewrite set_weight_same in E1.
  eexists. split; [exact E1 |].
  unfold Rev2.updateWeights_body. rewrite E. reflexivity.
Qed.

(** C4, as the code has it: the two revisions of [updateWeights] leave
    the same filter state when the sensor range is a finite double and
    every particle has prior weight 1 and, for each observation, gets the
    same map-frame observation from both transforms and has the map
    landmark nearest to that observation (the last one on ties) within
    sensor range both of the observation and of itself. *)
Theorem updateWeights_revisions_agree :
  forall sensor_range std_landmark observations map_landmarks pf,
    sensor_range <= DBL_MAX ->
    (forall p, In p (particles pf) ->
       revisions_comparable sensor_range observations map_landmarks p) ->
    exists pf',
      Rev1.updateWeights sensor_range std_landmark observations
        map_landmarks pf = Some pf'
      /\ Rev2.updateWeights sensor_range std_landmark observations
           map_landmarks pf = Some pf'.
Proof.
  intros sensor_range std_landmark observations map_landmarks pf Hmax Hall.
  assert (L : exists ps',
            Rev1.updateWeights_loop sensor_range std_landmark observations
              map_landmarks (particles pf) = Some ps'
            /\ Rev2.updateWeights_loop sensor_range std_landmark observations
                 map_landmarks (particles pf) = Some ps').
  { induction (particles pf) as [| p ps IH].
    - exists []. split; reflexivity.
    - destruct IH as (ps' & E1 & E2).
      { intros q Hq. apply Hall. right. exact Hq. }
      destruct (updateWeights_particle_agree sensor_range std_landmark
                  observations map_landmarks p Hmax
                  (Hall p (or_introl eq_refl))) as (p' & P1 & P2).
      exists (p' :: ps').
      cbn [Rev1.updateWeights_loop Rev2.updateWeights_loop].
      rewrite P1, P2, E1, E2. split; reflexivity. }
  destruct L as (ps' & E1 & E2).
  unfold Rev1.updateWeights, Rev2.updateWeights. rewrite E1, E2.
  eexists. split; reflexivity.
Qed.

Lemma distance_hundred : landmark_distance landmark_hundred origin_obs = 100.
Proof. apply dist_eval; simpl; [lra | ring]. Qed.

Lemma updateWeights_revisions_agree_witness :
  exists pf',
    Rev1.updateWeights 1 (1, 1) [origin_obs] far_pair_map (sample_filter [1])
    = Some pf'
    /\ Rev2.updateWeights 1 (1, 1) [origin_obs] far_pair_map
         (sample_filter [1])
       = Some pf'.
Proof.
  refine (updateWeights_revisions_agree 1 (1, 1) [origin_obs] far_pair_map
            (sample_filter [1]) DBL_MAX_ge_1 _).
  intros p [<- | []]. split; [reflexivity |].
  intros o [<- | []]. rewrite convert_rev1_origin, convert_rev2_origin.
  split; [reflexivity |].
  exists 0%nat, landmark_origin. split; [reflexivity |]. split.
  - exists landmark_origin. split; [reflexivity |].
    intros [| [| j]] lm' Hj; cbn [nth_error far_pair_map landmark_list] in Hj.
    + injection Hj as <-. split; [lra | intros _; lia].
    + injection Hj as <-. rewrite distance_origin, distance_hundred.
      split; [lra | intros H; lra].
    + destruct j; discriminate Hj.
  - split.
    + rewrite distance_origin. lra.
    + rewrite (dist_eval _ _ _ _ 0); simpl; [lra | lra | ring].
Defined.

Lemma convert_rev1_three (w : R) :
  Rev1.convertVehicleToMapCoords obs_three (sample_particle w) = obs_three.
Proof.
  unfold Rev1.convertVehicleToMapCoords, set_obs_y, set_obs_x, obs_three,
    sample_particle.
  cbn [obs_id obs_x obs_y p_x p_y p_theta]. rewrite cos_0, sin_0.
  f_equal; ring.
Qed.

Lemma convert_rev2_three (w : R) :
  Rev2.convertVehicleToMapCoords obs_three (sample_particle w) = obs_three.
Proof.
  unfold Rev2.convertVehicleToMapCoords, obs_three, sample_particle.
  cbn [obs_id obs_x obs_y p_x p_y p_theta]. rewrite cos_0, sin_0.
  f_equal; ring.
Qed.

Lemma distance_east_three : landmark_distance landmark_east obs_three = 2.
Proof. apply dist_eval; simpl; [lra | ring]. Qed.

Lemma distance_four_three : landmark_distance landmark_four obs_three = 1.
Proof. apply dist_eval; simpl; [lra | ring]. Qed.

Lemma multi_gaussian_at_one :
  1 * multi_gaussian_term 1 1 (4 - 3) (0 - 0) = exp (- (1 / 2)) / (2 * PI).
Proof.
  unfold multi_gaussian_term.
  replace (- ((4 - 3) * (4 - 3) / (2 * (1 * 1))
              + (0 - 0) * (0 - 0) / (2 * (1 * 1)))) with (- (1 / 2))
    by (field; lra).
  field. exact PI_neq0.
Qed.

Lemma multi_gaussian_at_two :
  1 * multi_gaussian_term 1 1 (1 - 3) (0 - 0) = exp (- 2) / (2 * PI).
Proof.
  unfold multi_gaussian_term.
  replace (- ((1 - 3) * (1 - 3) / (2 * (1 * 1))
              + (0 - 0) * (0 - 0) / (2 * (1 * 1)))) with (- 2)
    by (field; lra).
  field. exact PI_neq0.
Qed.

(** C4 as stated fails: with sensor range 2, unit standard deviations, a
    particle at the origin with heading 0 and weight 1, the observation
    (3, 0) and landmarks at (1, 0) and (4, 0), the first revision
    associates the landmark at (4, 0), which is within range of the
    observation, and the second revision the landmark at (1, 0), the only
    one within range of the particle; the weights differ. *)
Lemma updateWeights_revisions_differ :
  Rev1.updateWeights 2 (1, 1) [obs_three] two_landmark_map (sample_filter [1])
  = Some (sample_filter [exp (- (1 / 2)) / (2 * PI)])
  /\ Rev2.updateWeights 2 (1, 1) [obs_three] two_landmark_map
       (sample_filter [1])
     = Some (sample_filter [exp (- 2) / (2 * PI)])
  /\ exp (- 2) / (2 * PI) < exp (- (1 / 2)) / (2 * PI).
Proof.
  assert (H100 := DBL_MAX_ge_100).
  split; [| split].
  - unfold Rev1.updateWeights, sample_filter.
    cbn [map particles Rev1.updateWeights_loop Rev1.updateWeights_obs].
    rewrite convert_rev1_three. unfold Rev1.dataAssociation, two_landmark_map.
    cbn [landmark_list Rev1.dataAssociation_loop].
    change (dist (x_f landmark_east) (y_f landmark_east)
              (obs_x obs_three) (obs_y obs_three))
      with (landmark_distance landmark_east obs_three).
    change (dist (x_f landmark_four) (y_f landmark_four)
              (obs_x obs_three) (obs_y obs_three))
      with (landmark_distance landmark_four obs_three).
    rewrite distance_east_three, distance_four_three.
    rewrite (Rleb_true 2 2) by lra. rewrite (Rleb_true 2 DBL_MAX) by lra.
    rewrite (Rleb_true 1 2) by lra.
    cbn [nth_error bind fst snd].
    unfold landmark_four, obs_three. cbn [x_f y_f obs_x obs_y].
    unfold set_weight, sample_particle.
    cbn [p_id p_x p_y p_theta p_weight p_associations p_sense_x p_sense_y
         num_particles is_initialized length].
    rewrite multi_gaussian_at_one. reflexivity.
  - unfold Rev2.updateWeights, sample_filter.
    cbn [map particles Rev2.updateWeights_loop].
    unfold Rev2.updateWeights_body. cbn [map]. rewrite convert_rev2_three.
    unfold Rev2.predicted_landmarks, two_landmark_map.
    cbn [landmark_list filter].
    assert (Hd1 : dist (p_x (sample_particle 1)) (p_y (sample_particle 1))
                    (x_f landmark_east) (y_f landmark_east) = 1).
    { apply dist_eval; simpl; [lra | ring]. }
    assert (Hd4 : dist (p_x (sample_particle 1)) (p_y (sample_particle 1))
                    (x_f landmark_four) (y_f landmark_four) = 4).
    { apply dist_eval; simpl; [lra | ring]. }
    rewrite Hd1, Hd4.
    rewrite (Rleb_true 1 2) by lra. rewrite (Rleb_false 4 2) by lra.
    cbn [Rev2.dataAssociation]. unfold Rev2.dataAssociation_body.
    cbn [Rev2.closest_loop].
    change (dist (x_f landmark_east) (y_f landmark_east)
              (obs_x obs_three) (obs_y obs_three))
      with (landmark_distance landmark_east obs_three).
    rewrite distance_east_three. rewrite (Rleb_true 2 DBL_MAX) by lra.
    cbn [bind nth_error combine Rev2.multi_gaussian_loop fst snd].
    unfold landmark_east, obs_three. cbn [x_f y_f obs_x obs_y].
    unfold set_weight, sample_particle.
    cbn [p_id p_x p_y p_theta p_weight p_associations p_sense_x p_sense_y
         num_particles is_initialized length].
    rewrite multi_gaussian_at_two. reflexivity.
  - assert (Hpi := PI_RGT_0).
    assert (He : exp (- 2) < exp (- (1 / 2))) by (apply exp_increasing; lra).
    unfold Rdiv. apply Rmult_lt_compat_r; [| exact He].
    apply Rinv_0_lt_compat. lra.
Qed.

(** ** Initialisation *)

Lemma init_loop_rev1_particles gen x y theta std :
  forall idx ps,
    fold_left (Rev1.init_body gen x y theta std) idx ps
    = ps ++ map (initial_particle gen x y theta std) idx.
Proof.
  destruct std as [[sx sy] st].
  induction idx as [| i idx IH]; intros ps; cbn [fold_left map].
  - rewrite app_nil_r. reflexivity.
  - rewrite IH. unfold Rev1.init_body, initial_particle, normal_distribution.
    cbn [fst snd]. rewrite <- app_assoc. reflexivity.
Qed.

Lemma init_loop_rev2_particles gen x y theta std :
  forall idx ps,
    fold_left (Rev2.init_body gen x y theta std) idx ps
    = ps ++ map (initial_particle gen x y theta std) idx.
Proof.
  destruct std as [[sx sy] st].
  induction idx as [| i idx IH]; intros ps; cbn [fold_left map].
  - rewrite app_nil_r. reflexivity.
  - rewrite IH. unfold Rev2.init_body, initial_particle, normal_distribution.
    cbn [fst snd]. rewrite <- app_assoc. reflexivity.
Qed.

(** X1: [init] keeps the particles that are there and appends, for
    [i = 0 .. N-1] in this order (N = 100 in the first revision, 200 in the
    second), a particle with id [i], weight 1, no associations, and the
    pose [(x + std_x z, y + std_y z', theta + std_theta z'')] of the three
    variates drawn for it; it sets [num_particles] to N and
    [is_initialized] to true. *)
Theorem init_particles :
  forall gen x y theta std pf,
    (particles (Rev1.init gen x y theta std pf)
     = particles pf ++ map (initial_particle gen x y theta std) (seq 0 100)
     /\ num_particles (Rev1.init gen x y theta std pf) = 100%Z
     /\ is_initialized (Rev1.init gen x y theta std pf) = true)
    /\ (particles (Rev2.init gen x y theta std pf)
        = particles pf ++ map (initial_particle gen x y theta std) (seq 0 200)
        /\ num_particles (Rev2.init gen x y theta std pf) = 200%Z
        /\ is_initialized (Rev2.init gen x y theta std pf) = true).
Proof.
  intros gen x y theta std pf. split.
  - split; [| split; reflexivity].
    unfold Rev1.init. cbn [particles]. apply init_loop_rev1_particles.
  - split; [| split; reflexivity].
    unfold Rev2.init. cbn [particles]. apply init_loop_rev2_particles.
Qed.

(** X2: on a filter without particles, [init] with standard deviations
    zero places every particle exactly at the given pose, with weight 1
    and its index as id. *)
Theorem init_without_spread :
  forall gen x y theta pf i,
    particles pf = [] ->
    ((i < 100)%nat ->
     nth_error (particles (Rev1.init gen x y theta (0, 0, 0) pf)) i
     = Some (mkParticle (Z.of_nat i) x y theta 1 [] [] []))
    /\ ((i < 200)%nat ->
        nth_error (particles (Rev2.init gen x y theta (0, 0, 0) pf)) i
        = Some (mkParticle (Z.of_nat i) x y theta 1 [] [] [])).
Proof.
  intros gen x y theta pf i Hfresh.
  assert (E : initial_particle gen x y theta (0, 0, 0) i
              = mkParticle (Z.of_nat i) x y theta 1 [] [] []).
  { unfold initial_particle. cbn [fst snd]. f_equal; ring. }
  unfold Rev1.init, Rev2.init. cbn [particles].
  rewrite init_loop_rev1_particles, init_loop_rev2_particles, Hfresh.
  cbn [app]. change (Z.to_nat 100) with 100%nat.
  change (Z.to_nat 200) with 200%nat. split; intros Hi.
  - rewrite nth_error_map, nth_error_seq.
    destruct (Nat.ltb_spec i 100) as [_ | Hge]; [| lia].
    cbn [option_map Nat.add]. rewrite E. reflexivity.
  - rewrite nth_error_map, nth_error_seq.
    destruct (Nat.ltb_spec i 200) as [_ | Hge]; [| lia].
    cbn [option_map Nat.add]. rewrite E. reflexivity.
Qed.

Lemma init_without_spread_witness :
  nth_error (particles (Rev1.init zero_gen 1 2 3 (0, 0, 0) fresh_filter)) 7
  = Some (mkParticle 7 1 2 3 1 [] [] []).
Proof.
  refine (proj1 (init_without_spread zero_gen 1 2 3 fresh_filter 7 eq_refl) _).
  lia.
Defined.

(** ** Prediction without motion *)

Lemma prediction_body_rev1_rest delta_t velocity yaw_rate zx zy zt p :
  delta_t = 0 \/ (velocity = 0 /\ yaw_rate = 0) ->
  Rev1.prediction_body delta_t (0, 0, 0) velocity yaw_rate zx zy zt p = p.
Proof.
  intros H. unfold Rev1.prediction_body, normal_distribution.
  destruct p as [i x y t w a sx sy].
  destruct (Rgtb (Rabs yaw_rate) 0.0001) eqn:E;
    unfold set_theta, set_y, set_x;
    cbn [p_id p_x p_y p_theta p_weight p_associations p_sense_x p_sense_y].
  - destruct H as [-> | [-> ->]].
    + replace (t + yaw_rate * 0) with t by ring. f_equal; ring.
    + exfalso. unfold Rgtb in E. rewrite Rabs_R0 in E.
      destruct (Rgt_dec 0 0.0001) as [Hgt | _]; [lra | discriminate E].
  - destruct H as [-> | [-> ->]]; f_equal; ring.
Qed.

Lemma prediction_body_rev2_rest delta_t velocity yaw_rate zx zy zt p :
  delta_t = 0 \/ (velocity = 0 /\ yaw_rate = 0) ->
  Rev2.prediction_body delta_t (0, 0, 0) velocity yaw_rate zx zy zt p = p.
Proof.
  intros H. unfold Rev2.prediction_body, normal_distribution.
  destruct p as [i x y t w a sx sy].
  destruct (Rgtb (Rabs yaw_rate) 0.0001) eqn:E;
    unfold set_theta, set_y, set_x;
    cbn [p_id p_x p_y p_theta p_weight p_associations p_sense_x p_sense_y].
  - destruct H as [-> | [-> ->]].
    + replace (t + yaw_rate * 0) with t by ring. f_equal; ring.
    + exfalso. unfold Rgtb in E. rewrite Rabs_R0 in E.
      destruct (Rgt_dec 0 0.0001) as [Hgt | _]; [lra | discriminate E].
  - destruct H as [-> | [-> ->]]; f_equal; ring.
Qed.

(** X3: with all noise standard deviations zero, [prediction] returns the
    filter unchanged when the time step is zero, whatever the velocity and
    the yaw rate, and when velocity and yaw rate are both zero, whatever
    the time step (both revisions). *)
Theorem prediction_at_rest :
  forall gen delta_t velocity yaw_rate pf,
    delta_t = 0 \/ (velocity = 0 /\ yaw_rate = 0) ->
    Rev1.prediction gen delta_t (0, 0, 0) velocity yaw_rate pf = pf
    /\ Rev2.prediction gen delta_t (0, 0, 0) velocity yaw_rate pf = pf.
Proof.
  intros gen delta_t velocity yaw_rate [n b ps] H.
  unfold Rev1.prediction, Rev2.prediction.
  cbn [num_particles is_initialized particles].
  assert (L1 : forall l k,
             Rev1.prediction_loop gen delta_t (0, 0, 0) velocity yaw_rate k l
             = l).
  { induction l as [| p l IH]; intros k; cbn [Rev1.prediction_loop].
    - reflexivity.
    - rewrite (prediction_body_rev1_rest _ _ _ _ _ _ _ H), IH. reflexivity. }
  assert (L2 : forall l k,
             Rev2.prediction_loop gen delta_t (0, 0, 0) velocity yaw_rate k l
             = l).
  { induction l as [| p l IH]; intros k; cbn [Rev2.prediction_loop].
    - reflexivity.
    - rewrite (prediction_body_rev2_rest _ _ _ _ _ _ _ H), IH. reflexivity. }
  rewrite L1, L2. split; reflexivity.
Qed.

Lemma prediction_at_rest_witness :
  Rev1.prediction zero_gen 0 (0, 0, 0) 5 1 (sample_filter [1; 2])
  = sample_filter [1; 2]
  /\ Rev2.prediction zero_gen 0 (0, 0, 0) 5 1 (sample_filter [1; 2])
     = sample_filter [1; 2].
Proof.
  exact (prediction_at_rest zero_gen 0 5 1 (sample_filter [1; 2])
           (or_introl eq_refl)).
Defined.

(** X4: in the straight-line branch ([|yaw_rate| <= 1e-4]) and without
    noise, a particle moves by exactly [|velocity * delta_t|] (both
    revisions). *)
Theorem prediction_straight_step_length :
  forall delta_t velocity yaw_rate zx zy zt p,
    Rabs yaw_rate <= 0.0001 ->
    dist (p_x p) (p_y p)
      (p_x (Rev1.prediction_body delta_t (0, 0, 0) velocity yaw_rate
              zx zy zt p))
      (p_y (Rev1.prediction_body delta_t (0, 0, 0) velocity yaw_rate
              zx zy zt p))
    = Rabs (velocity * delta_t)
    /\ dist (p_x p) (p_y p)
         (p_x (Rev2.prediction_body delta_t (0, 0, 0) velocity yaw_rate
                 zx zy zt p))
         (p_y (Rev2.prediction_body delta_t (0, 0, 0) velocity yaw_rate
                 zx zy zt p))
       = Rabs (velocity * delta_t).
Proof.
  intros delta_t velocity yaw_rate zx zy zt p Hw.
  assert (E : Rgtb (Rabs yaw_rate) 0.0001 = false) by (apply Rgtb_false; lra).
  assert (D : forall x' y',
             x' = p_x p + velocity * delta_t * cos (p_theta p) ->
             y' = p_y p + velocity * delta_t * sin (p_theta p) ->
             dist (p_x p) (p_y p) x' y' = Rabs (velocity * delta_t)).
  { intros x' y' -> ->. apply dist_eval; [apply Rabs_pos |].
    assert (Hsc := sin2_cos2 (p_theta p)). unfold Rsqr in Hsc.
    replace (Rabs (velocity * delta_t) * Rabs (velocity * delta_t))
      with ((velocity * delta_t) * (velocity * delta_t)).
    - replace ((p_x p + velocity * delta_t * cos (p_theta p) - p_x p)
               * (p_x p + velocity * delta_t * cos (p_theta p) - p_x p)
               + (p_y p + velocity * delta_t * sin (p_theta p) - p_y p)
                 * (p_y p + velocity * delta_t * sin (p_theta p) - p_y p))
        with ((velocity * delta_t) * (velocity * delta_t)
              * (sin (p_theta p) * sin (p_theta p)
                 + cos (p_theta p) * cos (p_theta p))) by ring.
      rewrite Hsc. ring.
    - rewrite <- Rabs_mult. symmetry. apply Rabs_pos_eq. nra. }
  split; apply D;
    unfold Rev1.prediction_body, Rev2.prediction_body, normal_distribution;
    rewrite E; cbn [set_x set_y set_theta p_x p_y p_theta]; ring.
Qed.

Lemma prediction_straight_step_length_witness :
  dist (p_x (sample_particle 1)) (p_y (sample_particle 1))
    (p_x (Rev1.prediction_body 2 (0, 0, 0) 3 0 0 0 0 (sample_particle 1)))
    (p_y (Rev1.prediction_body 2 (0, 0, 0) 3 0 0 0 0 (sample_particle 1)))
  = Rabs (3 * 2).
Proof.
  refine (proj1 (prediction_straight_step_length 2 3 0 0 0 0
                   (sample_particle 1) _)).
  rewrite Rabs_R0. lra.
Defined.

(** ** What the weight update changes, and when it is defined *)

Lemma updateWeights_obs_rev1_reweighted sensor_range std_landmark map_landmarks :
  forall observations p p',
    Rev1.updateWeights_obs sensor_range std_landmark observations
      map_landmarks p = Some p' ->
    reweighted p p'.
Proof.
  unfold reweighted.
  induction observations as [| o rest IH]; intros p p' H;
    cbn [Rev1.updateWeights_obs] in H.
  - injection H as <-. symmetry. apply set_weight_same.
  - destruct (nth_error (landmark_list map_landmarks) _) as [lm |];
      [| discriminate H].
    cbn [bind] in H. apply IH in H. rewrite H at 1. reflexivity.
Qed.

(** X5: where it is defined, [updateWeights] changes nothing but the
    weights: the particles keep their number, order, id, pose and
    association vectors, and the filter keeps [num_particles] and
    [is_initialized] (both revisions). *)
Theorem updateWeights_frame :
  forall sensor_range std_landmark observations map_landmarks pf,
    (forall pf',
       Rev1.updateWeights sensor_range std_landmark observations
         map_landmarks pf = Some pf' ->
       Forall2 reweighted (particles pf) (particles pf')
       /\ num_particles pf' = num_particles pf
       /\ is_initialized pf' = is_initialized pf)
    /\ (forall pf',
          Rev2.updateWeights sensor_range std_landmark observations
            map_landmarks pf = Some pf' ->
          Forall2 reweighted (particles pf) (particles pf')
          /\ num_particles pf' = num_particles pf
          /\ is_initialized pf' = is_initialized pf).
Proof.
  intros sensor_range std_landmark observations map_landmarks pf. split.
  - intros pf' H. unfold Rev1.updateWeights in H.
    destruct (Rev1.updateWeights_loop _ _ _ _ (particles pf)) as [ps' |] eqn:E;
      [| discriminate H].
    cbn [bind] in H. injection H as <-. cbn [particles num_particles is_initialized].
    split; [| split; reflexivity].
    revert ps' E. induction (particles pf) as [| p ps IH]; intros ps' E;
      cbn [Rev1.updateWeights_loop] in E.
    + injection E as <-. constructor.
    + destruct (Rev1.updateWeights_obs _ _ _ _ p) as [p' |] eqn:Ep;
        [| discriminate E].
      cbn [bind] in E.
      destruct (Rev1.updateWeights_loop _ _ _ _ ps) as [rest' |];
        [| discriminate E].
      cbn [bind] in E. injection E as <-. constructor.
      * exact (updateWeights_obs_rev1_reweighted _ _ _ _ _ _ Ep).
      * apply IH. reflexivity.
  - intros pf' H. unfold Rev2.updateWeights in H.
    destruct (Rev2.updateWeights_loop _ _ _ _ (particles pf)) as [ps' |] eqn:E;
      [| discriminate H].
    cbn [bind] in H. injection H as <-. cbn [particles num_particles is_initialized].
    split; [| split; reflexivity].
    revert ps' E. induction (particles pf) as [| p ps IH]; intros ps' E;
      cbn [Rev2.updateWeights_loop] in E.
    + injection E as <-. constructor.
    + destruct (Rev2.updateWeights_body _ _ _ _ p) as [p' |] eqn:Ep;
        [| discriminate E].
      cbn [bind] in E.
      destruct (Rev2.updateWeights_loop _ _ _ _ ps) as [rest' |];
        [| discriminate E].
      cbn [bind] in E. injection E as <-. constructor.
      * unfold Rev2.updateWeights_body in Ep.
        destruct (Rev2.dataAssociation _ _); [| discriminate Ep].
        cbn [bind] in Ep. injection Ep as <-. reflexivity.
      * apply IH. reflexivity.
Qed.

Lemma updateWeights_frame_witness :
  Forall2 reweighted (particles (sample_filter [1]))
    (particles (sample_filter [1 / (2 * PI)]))
  /\ num_particles (sample_filter [1 / (2 * PI)])
     = num_particles (sample_filter [1])
  /\ is_initialized (sample_filter [1 / (2 * PI)])
     = is_initialized (sample_filter [1]).
Proof.
  exact (proj1 (updateWeights_frame 1 (1, 1) [origin_obs] origin_map
                  (sample_filter [1]))
           (sample_filter [1 / (2 * PI)]) (updateWeights_rev1_at_peak 1)).
Defined.

(** The index the first revision returns lies inside a non-empty map. *)
Lemma dataAssociation_rev1_in_bounds sensor_range map_landmarks o :
  landmark_list map_landmarks <> [] ->
  exists lm,
    nth_error (landmark_list map_landmarks)
      (Rev1.dataAssociation sensor_range map_landmarks o) = Some lm.
Proof.
  intros Hne. unfold Rev1.dataAssociation.
  destruct (dataAssociation_loop_spec sensor_range o
              (landmark_list map_landmarks) 0 DBL_MAX 0)
    as [[E _] | (k & lm & E & Hn & _)].
  - rewrite E. destruct (landmark_list map_landmarks) as [| lm0 rest];
      [exfalso; apply Hne; reflexivity |].
    exists lm0. reflexivity.
  - rewrite E. exists lm. exact Hn.
Qed.

Lemma updateWeights_obs_rev1_defined sensor_range std_landmark map_landmarks :
  landmark_list map_landmarks <> [] ->
  forall observations p,
    exists p',
      Rev1.updateWeights_obs sensor_range std_landmark observations
        map_landmarks p = Some p'.
Proof.
  intros Hne. induction observations as [| o rest IH]; intros p;
    cbn [Rev1.updateWeights_obs].
  - exists p. reflexivity.
  - destruct (dataAssociation_rev1_in_bounds sensor_range map_landmarks
                (Rev1.convertVehicleToMapCoords o p) Hne) as [lm ->].
    cbn [bind]. apply IH.
Qed.

(** X6: the first revision of [updateWeights] is defined exactly when
    there is no observation, or no particle, or the map holds at least one
    landmark; with an empty map and an observation it indexes the empty
    landmark list. *)
Theorem updateWeights_rev1_defined_iff :
  forall sensor_range std_landmark observations map_landmarks pf,
    (exists pf',
        Rev1.updateWeights sensor_range std_landmark observations
          map_landmarks pf = Some pf')
    <-> (observations = [] \/ particles pf = []
         \/ landmark_list map_landmarks <> []).
Proof.
  intros sensor_range std_landmark observations map_landmarks pf. split.
  - intros [pf' H].
    destruct observations as [| o rest]; [left; reflexivity |].
    destruct (particles pf) as [| p ps] eqn:Eps; [right; left; reflexivity |].
    right. right. intros Hempty. unfold Rev1.updateWeights in H.
    rewrite Eps in H. cbn [Rev1.updateWeights_loop Rev1.updateWeights_obs] in H.
    rewrite Hempty in H.
    destruct (Rev1.dataAssociation sensor_range map_landmarks
                (Rev1.convertVehicleToMapCoords o p)); discriminate H.
  - intros H.
    assert (L : exists ps',
              Rev1.updateWeights_loop sensor_range std_landmark observations
                map_landmarks (particles pf) = Some ps').
    { destruct H as [-> | [-> | Hne]].
      - induction (particles pf) as [| p ps [ps' IH]].
        + exists []. reflexivity.
        + exists (p :: ps').
          cbn [Rev1.updateWeights_loop Rev1.updateWeights_obs bind].
          rewrite IH. reflexivity.
      - exists []. reflexivity.
      - induction (particles pf) as [| p ps [ps' IH]].
        + exists []. reflexivity.
        + destruct (updateWeights_obs_rev1_defined sensor_range std_landmark
                      map_landmarks Hne observations p) as [p' Ep].
          exists (p' :: ps'). cbn [Rev1.updateWeights_loop].
          rewrite Ep, IH. reflexivity. }
    destruct L as [ps' E]. unfold Rev1.updateWeights. rewrite E.
    eexists. reflexivity.
Qed.

Lemma dataAssociation_rev2_defined (lms : list single_landmark_s) :
  lms <> [] ->
  forall observations,
    (forall lm o, In lm lms -> In o observations ->
                  landmark_distance lm o <= DBL_MAX) ->
    exists associated,
      Rev2.dataAssociation lms observations = Some associated
      /\ length associated = length observations.
Proof.
  intros Hne. induction observations as [| o rest IH]; intros Hfin.
  - exists []. split; reflexivity.
  - destruct IH as (associated & E & L).
    { intros lm o' Hlm Ho'. apply Hfin; [exact Hlm | right; exact Ho']. }
    cbn [Rev2.dataAssociation]. unfold Rev2.dataAssociation_body.
    destruct (closest_loop_spec o lms 0 DBL_MAX None)
      as [[_ Hall] | (k & lm & Ek & Hn & _)].
    + exfalso. destruct lms as [| lm0 lms]; [apply Hne; reflexivity |].
      specialize (Hall lm0 (or_introl eq_refl)).
      specialize (Hfin lm0 o (or_introl eq_refl) (or_introl eq_refl)). lra.
    + rewrite Ek. cbn [bind Nat.add]. rewrite Hn. cbn [bind]. rewrite E.
      cbn [bind]. eexists. split; [reflexivity |]. cbn [length]. congruence.
Qed.

Lemma dataAssociation_rev2_length (lms : list single_landmark_s) :
  forall observations associated,
    Rev2.dataAssociation lms observations = Some associated ->
    length associated = length observations.
Proof.
  induction observations as [| o rest IH]; intros associated H;
    cbn [Rev2.dataAssociation] in H.
  - injection H as <-. reflexivity.
  - destruct (Rev2.dataAssociation_body lms o); [| discriminate H].
    cbn [bind] in H.
    destruct (Rev2.dataAssociation lms rest) as [a |]; [| discriminate H].
    cbn [bind] in H. injection H as <-. cbn [length]. f_equal. apply IH.
    reflexivity.
Qed.

Lemma updateWeights_loop_rev2_defined sensor_range std_landmark observations
    map_landmarks :
  forall ps,
    (exists ps',
        Rev2.updateWeights_loop sensor_range std_landmark observations
          map_landmarks ps = Some ps')
    <-> (forall p, In p ps ->
           exists p',
             Rev2.updateWeights_body sensor_range std_landmark observations
               map_landmarks p = Some p').
Proof.
  induction ps as [| p ps IH]; cbn [Rev2.updateWeights_loop].
  - split; [intros _ q [] | intros _; exists []; reflexivity].
  - split.
    + intros [ps' H] q [<- | Hq].
      * destruct (Rev2.updateWeights_body _ _ _ _ p) as [p' |];
          [exists p'; reflexivity | discriminate H].
      * destruct (Rev2.updateWeights_body _ _ _ _ p) as [p' |];
          [| discriminate H].
        cbn [bind] in H.
        destruct (Rev2.updateWeights_loop _ _ _ _ ps) as [rest' |];
          [| discriminate H].
        apply (proj1 IH); [exists rest'; reflexivity | exact Hq].
    + intros H. destruct (H p (or_introl eq_refl)) as [p' Ep].
      destruct (proj2 IH (fun q Hq => H q (or_intror Hq))) as [rest' Er].
      rewrite Ep, Er. eexists. reflexivity.
Qed.

(** X7: as long as all distances between landmarks and transformed
    observations are finite doubles, the second revision of
    [updateWeights] is defined exactly when there is no observation or
    every particle has at least one map landmark within sensor range of
    its own position; for a particle without a landmark in range the
    association reads an index that was never assigned. *)
Theorem updateWeights_rev2_defined_iff :
  forall sensor_range std_landmark observations map_landmarks pf,
    (forall p lm o,
       In p (particles pf) -> In lm (landmark_list map_landmarks) ->
       In o observations ->
       landmark_distance lm (Rev2.convertVehicleToMapCoords o p) <= DBL_MAX) ->
    ((exists pf',
         Rev2.updateWeights sensor_range std_landmark observations
           map_landmarks pf = Some pf')
     <-> (observations = []
          \/ forall p, In p (particles pf) ->
               Rev2.predicted_landmarks sensor_range map_landmarks p <> [])).
Proof.
  intros sensor_range std_landmark observations map_landmarks pf Hfin.
  assert (U : (exists pf',
                  Rev2.updateWeights sensor_range std_landmark observations
                    map_landmarks pf = Some pf')
              <-> (exists ps',
                      Rev2.updateWeights_loop sensor_range std_landmark
                        observations map_landmarks (particles pf) = Some ps')).
  { unfold Rev2.updateWeights. split.
    - intros [pf' H].
      destruct (Rev2.updateWeights_loop _ _ _ _ (particles pf)) as [ps' |];
        [exists ps'; reflexivity | discriminate H].
    - intros [ps' ->]. eexists. reflexivity. }
  rewrite U, updateWeights_loop_rev2_defined. split.
  - intros H. destruct observations as [| o rest]; [left; reflexivity |].
    right. intros p Hp Hempty. destruct (H p Hp) as [p' Ep].
    unfold Rev2.updateWeights_body in Ep. rewrite Hempty in Ep.
    cbn [map Rev2.dataAssociation] in Ep.
    unfold Rev2.dataAssociation_body in Ep.
    cbn [Rev2.closest_loop bind] in Ep. discriminate Ep.
  - intros H p Hp. unfold Rev2.updateWeights_body.
    destruct H as [-> | H].
    + cbn [map Rev2.dataAssociation bind]. eexists. reflexivity.
    + destruct (dataAssociation_rev2_defined
                  (Rev2.predicted_landmarks sensor_range map_landmarks p)
                  (H p Hp)
                  (map (fun o => Rev2.convertVehicleToMapCoords o p)
                     observations)) as (associated & E & _).
      { intros lm o' Hlm Ho'. apply in_map_iff in Ho'.
        destruct Ho' as (o & <- & Ho).
        apply Hfin; [exact Hp | | exact Ho].
        unfold Rev2.predicted_landmarks in Hlm.
        apply filter_In in Hlm. exact (proj1 Hlm). }
      rewrite E. cbn [bind]. eexists. reflexivity.
Qed.

Lemma updateWeights_rev2_defined_iff_witness :
  (exists pf',
      Rev2.updateWeights 1 (1, 1) [origin_obs] origin_map (sample_filter [1])
      = Some pf')
  <-> ([origin_obs] = []
       \/ forall p, In p (particles (sample_filter [1])) ->
            Rev2.predicted_landmarks 1 origin_map p <> []).
Proof.
  refine (updateWeights_rev2_defined_iff 1 (1, 1) [origin_obs] origin_map
            (sample_filter [1]) _).
  intros p lm o [<- | []] [<- | []] [<- | []].
  rewrite convert_rev2_origin, distance_origin.
  apply Rle_trans with 1; [lra | exact DBL_MAX_ge_1].
Defined.

(** ** Bounds on the weights *)

(** For positive standard deviations the density lies between 0
    (excluded) and its peak value. *)
Lemma multi_gaussian_term_bounds (std_x std_y dx dy : R) :
  0 < std_x -> 0 < std_y ->
  0 < multi_gaussian_term std_x std_y dx dy <= peak_density (std_x, std_y).
Proof.
  intros Hx Hy. unfold multi_gaussian_term, peak_density. cbn [fst snd].
  assert (Hpi := PI_RGT_0).
  assert (Hden : 0 < 2 * PI * std_x * std_y).
  { apply Rmult_lt_0_compat; [| exact Hy].
    apply Rmult_lt_0_compat; [lra | exact Hx]. }
  assert (Hpeak : 0 < 1 / (2 * PI * std_x * std_y)).
  { unfold Rdiv. rewrite Rmult_1_l. apply Rinv_0_lt_compat. exact Hden. }
  set (q := dx * dx / (2 * (std_x * std_x)) + dy * dy / (2 * (std_y * std_y))).
  assert (Hq : 0 <= q).
  { unfold q. apply Rplus_le_le_0_compat; unfold Rdiv;
      (apply Rmult_le_pos; [nra |]); apply Rlt_le, Rinv_0_lt_compat; nra. }
  assert (He : 0 < exp (- q) <= 1).
  { split; [apply exp_pos |].
    destruct (Req_dec q 0) as [-> | Hne].
    - rewrite Ropp_0, exp_0. lra.
    - rewrite <- exp_0. apply Rlt_le, exp_increasing. lra. }
  split.
  - apply Rmult_lt_0_compat; [exact Hpeak | exact (proj1 He)].
  - rewrite <- (Rmult_1_r (1 / (2 * PI * std_x * std_y))) at 2.
    apply Rmult_le_compat_l; [lra | exact (proj2 He)].
Qed.

Lemma peak_density_positive (std_landmark : R * R) :
  0 < fst std_landmark -> 0 < snd std_landmark ->
  0 < peak_density std_landmark.
Proof.
  intros Hx Hy. destruct std_landmark as [sx sy]. cbn [fst snd] in *.
  destruct (multi_gaussian_term_bounds sx sy 0 0 Hx Hy). lra.
Qed.

Lemma multi_gaussian_loop_bounds (std_landmark : R * R) :
  0 < fst std_landmark -> 0 < snd std_landmark ->
  forall pairs w,
    0 < w ->
    0 < Rev2.multi_gaussian_loop std_landmark pairs w
      <= w * peak_density std_landmark ^ length pairs.
Proof.
  intros Hx Hy. assert (Hpeak := peak_density_positive std_landmark Hx Hy).
  induction pairs as [| [a c] rest IH]; intros w Hw;
    cbn [Rev2.multi_gaussian_loop length pow].
  - lra.
  - destruct (multi_gaussian_term_bounds (fst std_landmark)
                (snd std_landmark) (obs_x a - obs_x c) (obs_y a - obs_y c)
                Hx Hy) as [T1 T2].
    replace (peak_density (fst std_landmark, snd std_landmark))
      with (peak_density std_landmark) in T2
      by (destruct std_landmark; reflexivity).
    set (t := multi_gaussian_term (fst std_landmark) (snd std_landmark)
                (obs_x a - obs_x c) (obs_y a - obs_y c)) in *.
    destruct (IH (w * t)) as [I1 I2]; [apply Rmult_lt_0_compat; assumption |].
    split; [exact I1 |].
    apply Rle_trans with (w * t * peak_density std_landmark ^ length rest);
      [exact I2 |].
    assert (Hp : 0 <= peak_density std_landmark ^ length rest)
      by (apply pow_le; lra).
    assert (Hwt : w * t <= w * peak_density std_landmark)
      by (apply Rmult_le_compat_l; lra).
    replace (w * (peak_density std_landmark
                  * peak_density std_landmark ^ length rest))
      with (w * peak_density std_landmark
            * peak_density std_landmark ^ length rest) by ring.
    apply Rmult_le_compat_r; assumption.
Qed.

(** X8: for positive measurement standard deviations, every weight the
    second revision of [updateWeights] assigns is non-negative and at most
    the peak density [1/(2 PI std_x std_y)] raised to the number of
    observations. *)
Theorem updateWeights_rev2_weight_bounds :
  forall sensor_range std_landmark observations map_landmarks pf pf',
    0 < fst std_landmark -> 0 < snd std_landmark ->
    Rev2.updateWeights sensor_range std_landmark observations map_landmarks pf
    = Some pf' ->
    Forall (fun p' =>
              0 <= p_weight p'
                <= peak_density std_landmark ^ length observations)
           (particles pf').
Proof.
  intros sensor_range std_landmark observations map_landmarks pf pf' Hx Hy H.
  unfold Rev2.updateWeights in H.
  destruct (Rev2.updateWeights_loop _ _ _ _ (particles pf)) as [ps' |] eqn:E;
    [| discriminate H].
  cbn [bind] in H. injection H as <-. cbn [particles].
  revert ps' E. induction (particles pf) as [| p ps IH]; intros ps' E;
    cbn [Rev2.updateWeights_loop] in E.
  - injection E as <-. constructor.
  - destruct (Rev2.updateWeights_body _ _ _ _ p) as [p' |] eqn:Ep;
      [| discriminate E].
    cbn [bind] in E.
    destruct (Rev2.updateWeights_loop _ _ _ _ ps) as [rest' |];
      [| discriminate E].
    cbn [bind] in E. injection E as <-. constructor; [| apply IH; reflexivity].
    unfold Rev2.updateWeights_body in Ep.
    destruct (Rev2.dataAssociation _ _) as [associated |] eqn:Ea;
      [| discriminate Ep].
    cbn [bind] in Ep. injection Ep as <-. cbn [set_weight p_weight].
    apply dataAssociation_rev2_length in Ea. rewrite length_map in Ea.
    destruct (multi_gaussian_loop_bounds std_landmark Hx Hy
                (combine associated
                   (map (fun o => Rev2.convertVehicleToMapCoords o p)
                      observations)) 1 Rlt_0_1) as [B1 B2].
    rewrite length_combine, length_map, Ea, Nat.min_id, Rmult_1_l in B2.
    split; [apply Rlt_le; exact B1 | exact B2].
Qed.

Lemma updateWeights_rev2_weight_bounds_witness :
  Forall (fun p' =>
            0 <= p_weight p' <= peak_density (1, 1) ^ length [origin_obs])
         (particles (sample_filter [1 / (2 * PI)])).
Proof.
  refine (updateWeights_rev2_weight_bounds 1 (1, 1) [origin_obs] origin_map
            (sample_filter [1]) (sample_filter [1 / (2 * PI)]) _ _
            (updateWeights_rev2_at_peak 1)).
  - exact Rlt_0_1.
  - exact Rlt_0_1.
Defined.

(** X9: in the first revision, with positive measurement standard
    deviations, a particle of non-negative weight keeps a non-negative
    weight through the observation loop of [updateWeights], and its new
    weight is at most its old weight times the peak density raised to the
    number of observations. *)
Theorem updateWeights_rev1_weight_bounds :
  forall sensor_range std_landmark map_landmarks observations p p',
    0 < fst std_landmark -> 0 < snd std_landmark ->
    0 <= p_weight p ->
    Rev1.updateWeights_obs sensor_range std_landmark observations
      map_landmarks p = Some p' ->
    0 <= p_weight p'
      <= p_weight p * peak_density std_landmark ^ length observations.
Proof.
  intros sensor_range std_landmark map_landmarks observations p p' Hx Hy.
  assert (Hpeak := peak_density_positive std_landmark Hx Hy).
  revert p. induction observations as [| o rest IH]; intros p Hw H;
    cbn [Rev1.updateWeights_obs] in H.
  - injection H as <-. cbn [length pow]. lra.
  - destruct (nth_error (landmark_list map_landmarks) _) as [lm |];
      [| discriminate H].
    cbn [bind] in H.
    destruct (multi_gaussian_term_bounds (fst std_landmark)
                (snd std_landmark)
                (x_f lm - obs_x (Rev1.convertVehicleToMapCoords o p))
                (y_f lm - obs_y (Rev1.convertVehicleToMapCoords o p))
                Hx Hy) as [T1 T2].
    replace (peak_density (fst std_landmark, snd std_landmark))
      with (peak_density std_landmark) in T2
      by (destruct std_landmark; reflexivity).
    set (t := multi_gaussian_term (fst std_landmark) (snd std_landmark)
                (x_f lm - obs_x (Rev1.convertVehicleToMapCoords o p))
                (y_f lm - obs_y (Rev1.convertVehicleToMapCoords o p))) in *.
    apply IH in H; [| cbn [set_weight p_weight];
                      apply Rmult_le_pos; lra].
    cbn [set_weight p_weight] in H. destruct H as [I1 I2].
    split; [exact I1 |].
    apply Rle_trans
      with (p_weight p * t * peak_density std_landmark ^ length rest);
      [exact I2 |].
    assert (Hp : 0 <= peak_density std_landmark ^ length rest)
      by (apply pow_le; lra).
    assert (Hwt : p_weight p * t <= p_weight p * peak_density std_landmark)
      by (apply Rmult_le_compat_l; lra).
    cbn [length pow].
    replace (p_weight p * (peak_density std_landmark
                           * peak_density std_landmark ^ length rest))
      with (p_weight p * peak_density std_landmark
            * peak_density std_landmark ^ length rest) by ring.
    apply Rmult_le_compat_r; assumption.
Qed.

Lemma updateWeights_obs_rev1_at_peak (w : R) :
  Rev1.updateWeights_obs 1 (1, 1) [origin_obs] origin_map (sample_particle w)
  = Some (sample_particle (w / (2 * PI))).
Proof.
  pose proof (updateWeights_rev1_at_peak w) as H.
  unfold Rev1.updateWeights, sample_filter in H.
  cbn [map particles Rev1.updateWeights_loop] in H.
  destruct (Rev1.updateWeights_obs 1 (1, 1) [origin_obs] origin_map
              (sample_particle w)) as [q |]; [| discriminate H].
  cbn [bind] in H. injection H as ->. reflexivity.
Qed.

Lemma updateWeights_rev1_weight_bounds_witness :
  0 <= p_weight (sample_particle (1 / (2 * PI)))
    <= p_weight (sample_particle 1)
       * peak_density (1, 1) ^ length [origin_obs].
Proof.
  refine (updateWeights_rev1_weight_bounds 1 (1, 1) origin_map [origin_obs]
            (sample_particle 1) (sample_particle (1 / (2 * PI))) _ _ _
            (updateWeights_obs_rev1_at_peak 1)).
  - exact Rlt_0_1.
  - exact Rlt_0_1.
  - simpl. lra.
Defined.

Lemma dist_zero (x1 y1 x2 y2 : R) :
  dist x1 y1 x2 y2 <= 0 -> x2 = x1 /\ y2 = y1.
Proof.
  unfold dist. intros H.
  assert (Hs : 0 <= (x2 - x1) * (x2 - x1) + (y2 - y1) * (y2 - y1)).
  { apply Rplus_le_le_0_compat; apply Rle_0_sqr. }
  assert (H0 : sqrt ((x2 - x1) * (x2 - x1) + (y2 - y1) * (y2 - y1)) = 0).
  { apply Rle_antisym; [exact H | apply sqrt_pos]. }
  apply sqrt_eq_0 in H0; [| exact Hs].
  destruct (Rplus_sqr_eq_0 (x2 - x1) (y2 - y1) H0) as [Hx Hy].
  split; lra.
Qed.

(** X10: second revision, positive measurement standard deviations, a
    single observation: when some map landmark within sensor range of the
    particle lies exactly where the particle places the observation, the
    particle gets the peak density [1/(2 PI std_x std_y)] as its
    weight. *)
Theorem updateWeights_rev2_exact_match :
  forall sensor_range std_landmark map_landmarks o p lm,
    0 < fst std_landmark -> 0 < snd std_landmark ->
    In lm (landmark_list map_landmarks) ->
    dist (p_x p) (p_y p) (x_f lm) (y_f lm) <= sensor_range ->
    x_f lm = obs_x (Rev2.convertVehicleToMapCoords o p) ->
    y_f lm = obs_y (Rev2.convertVehicleToMapCoords o p) ->
    Rev2.updateWeights_body sensor_range std_landmark [o] map_landmarks p
    = Some (set_weight p (peak_density std_landmark)).
Proof.
  intros sensor_range std_landmark map_landmarks o p lm _ _ Hin Hrange Hx Hy.
  unfold Rev2.updateWeights_body. cbn [map Rev2.dataAssociation].
  set (c := Rev2.convertVehicleToMapCoords o p) in *.
  set (lms := Rev2.predicted_landmarks sensor_range map_landmarks p).
  assert (Hlm : In lm lms).
  { unfold lms, Rev2.predicted_landmarks. apply filter_In.
    split; [exact Hin | apply Rleb_true; exact Hrange]. }
  assert (Hd : landmark_distance lm c = 0).
  { apply dist_eval; [lra |]. rewrite Hx, Hy. ring. }
  assert (H0 := DBL_MAX_ge_1).
  unfold Rev2.dataAssociation_body.
  destruct (closest_loop_spec c lms 0 DBL_MAX None)
    as [[_ Hall] | (k & lm1 & Ek & Hn & _ & Hmin)].
  - exfalso. specialize (Hall lm Hlm). lra.
  - rewrite Ek. cbn [bind Nat.add]. rewrite Hn.
    cbn [bind combine Rev2.multi_gaussian_loop obs_x obs_y].
    destruct (In_nth_error _ _ Hlm) as [j Hj].
    destruct (Hmin j lm Hj) as [Hle _]. rewrite Hd in Hle.
    destruct (dist_zero _ _ _ _ Hle) as [Ex Ey].
    rewrite <- Ex, <- Ey. do 2 f_equal.
    unfold multi_gaussian_term, peak_density.
    replace (- ((obs_x c - obs_x c) * (obs_x c - obs_x c)
                / (2 * (fst std_landmark * fst std_landmark))
                + (obs_y c - obs_y c) * (obs_y c - obs_y c)
                  / (2 * (snd std_landmark * snd std_landmark)))) with 0.
    + rewrite exp_0. ring.
    + unfold Rdiv. ring.
Qed.

Lemma updateWeights_rev2_exact_match_witness :
  Rev2.updateWeights_body 1 (1, 1) [origin_obs] origin_map (sample_particle 1)
  = Some (set_weight (sample_particle 1) (peak_density (1, 1))).
Proof.
  refine (updateWeights_rev2_exact_match 1 (1, 1) origin_map origin_obs
            (sample_particle 1) landmark_origin _ _ _ _ _ _).
  - exact Rlt_0_1.
  - exact Rlt_0_1.
  - left. reflexivity.
  - rewrite (dist_eval _ _ _ _ 0); simpl; [lra | lra | ring].
  - rewrite convert_rev2_origin. reflexivity.
  - rewrite convert_rev2_origin. reflexivity.
Defined.

(** ** Resampling, in general *)

(** X11: for a sampler of the weight distribution, [resample] (either
    revision) is defined, keeps the number of particles, [num_particles]
    and [is_initialized], and every particle of the new set is an
    unchanged copy (id and weight included) of a particle of the old set
    whose weight is not zero. *)
Theorem resample_draws_weighted_particles :
  forall sampler pf,
    sampler_ok sampler (map p_weight (particles pf)) ->
    exists pf',
      Rev1.resample sampler pf = Some pf'
      /\ Rev2.resample sampler pf = Some pf'
      /\ length (particles pf') = length (particles pf)
      /\ num_particles pf' = num_particles pf
      /\ is_initialized pf' = is_initialized pf
      /\ forall p, In p (particles pf') ->
           In p (particles pf) /\ p_weight p <> 0.
Proof.
  intros sampler pf Hs.
  assert (Hin : forall k,
             (sampler (map p_weight (particles pf)) k
              < length (particles pf))%nat).
  { intros k. destruct (positive_probability_index _ _ (Hs k)) as [Hlt _].
    rewrite length_map in Hlt. exact Hlt. }
  destruct (resample_loop_draws (sampler (map p_weight (particles pf)))
              (particles pf) Hin (length (particles pf)) 0%nat [])
    as (drawn & H1 & H2 & H3).
  assert (R1 : Rev1.resample sampler pf
               = Some (mkFilter (num_particles pf) (is_initialized pf) drawn)).
  { unfold Rev1.resample. rewrite H1. reflexivity. }
  eexists. split; [exact R1 |]. split; [rewrite <- R1; apply resample_same |].
  cbn [particles num_particles is_initialized].
  split; [exact H2 |]. split; [reflexivity |]. split; [reflexivity |].
  intros p Hp. destruct (H3 p Hp) as [k Hk]. split.
  - apply nth_error_In in Hk. exact Hk.
  - destruct (positive_probability_index _ _ (Hs k)) as [_ Hn].
    rewrite nth_weights, Hk in Hn. exact Hn.
Qed.

Lemma resample_draws_weighted_particles_witness :
  exists pf',
    Rev1.resample (fun _ _ => 1%nat) (sample_filter [0; 1; 0]) = Some pf'
    /\ Rev2.resample (fun _ _ => 1%nat) (sample_filter [0; 1; 0]) = Some pf'
    /\ length (particles pf') = length (particles (sample_filter [0; 1; 0]))
    /\ num_particles pf' = num_particles (sample_filter [0; 1; 0])
    /\ is_initialized pf' = is_initialized (sample_filter [0; 1; 0])
    /\ forall p, In p (particles pf') ->
         In p (particles (sample_filter [0; 1; 0])) /\ p_weight p <> 0.
Proof.
  refine (resample_draws_weighted_particles (fun _ _ => 1%nat)
            (sample_filter [0; 1; 0]) _).
  intros k. unfold discrete_distribution, sum_weights. simpl.
  replace (1 / (0 + (1 + (0 + 0)))) with 1 by (field; lra).
  exact Rlt_0_1.
Defined.

(** ** The coordinate transform as a rigid motion *)

(** X12: the transform of the second revision keeps the distance between
    any two observations transformed for the same particle. *)
Theorem convertVehicleToMapCoords_rev2_isometry :
  forall p o1 o2,
    dist (obs_x (Rev2.convertVehicleToMapCoords o1 p))
         (obs_y (Rev2.convertVehicleToMapCoords o1 p))
         (obs_x (Rev2.convertVehicleToMapCoords o2 p))
         (obs_y (Rev2.convertVehicleToMapCoords o2 p))
    = dist (obs_x o1) (obs_y o1) (obs_x o2) (obs_y o2).
Proof.
  intros p o1 o2. unfold dist, Rev2.convertVehicleToMapCoords.
  cbn [obs_x obs_y]. f_equal.
  assert (Hsc := sin2_cos2 (p_theta p)). unfold Rsqr in Hsc.
  set (s := sin (p_theta p)) in *. set (c := cos (p_theta p)) in *.
  replace ((p_x p + obs_x o2 * c - obs_y o2 * s
            - (p_x p + obs_x o1 * c - obs_y o1 * s))
           * (p_x p + obs_x o2 * c - obs_y o2 * s
              - (p_x p + obs_x o1 * c - obs_y o1 * s))
           + (p_y p + obs_x o2 * s + obs_y o2 * c
              - (p_y p + obs_x o1 * s + obs_y o1 * c))
             * (p_y p + obs_x o2 * s + obs_y o2 * c
                - (p_y p + obs_x o1 * s + obs_y o1 * c)))
    with (((obs_x o2 - obs_x o1) * (obs_x o2 - obs_x o1)
           + (obs_y o2 - obs_y o1) * (obs_y o2 - obs_y o1))
          * (s * s + c * c)) by ring.
  rewrite Hsc. ring.
Qed.

(** X13: the transforms of the two revisions return the same observation
    exactly when [(mapX - obsX) * sin(theta) = 0], [mapX] being the
    transformed x coordinate. *)
Theorem convertVehicleToMapCoords_revisions_agree_iff :
  forall o p,
    Rev1.convertVehicleToMapCoords o p = Rev2.convertVehicleToMapCoords o p
    <-> (obs_x (Rev2.convertVehicleToMapCoords o p) - obs_x o)
        * sin (p_theta p) = 0.
Proof.
  intros o p.
  unfold Rev1.convertVehicleToMapCoords, Rev2.convertVehicleToMapCoords,
    set_obs_y, set_obs_x.
  cbn [obs_id obs_x obs_y]. split.
  - intros H. injection H as H.
    set (s := sin (p_theta p)) in *. set (c := cos (p_theta p)) in *.
    replace ((p_x p + obs_x o * c - obs_y o * s - obs_x o) * s)
      with (p_y p + (p_x p + obs_x o * c - obs_y o * s) * s + obs_y o * c
            - (p_y p + obs_x o * s + obs_y o * c)) by ring.
    rewrite H. ring.
  - intros H. f_equal.
    set (s := sin (p_theta p)) in *. set (c := cos (p_theta p)) in *.
    replace (p_y p + (p_x p + obs_x o * c - obs_y o * s) * s + obs_y o * c)
      with (p_y p + obs_x o * s + obs_y o * c
            + (p_x p + obs_x o * c - obs_y o * s - obs_x o) * s) by ring.
    rewrite H. ring.
Qed.

(** ** Text output *)

Module TextFacts.
Import String.
Local Open Scope string_scope.

Lemma append_nil_r (s : string) : s ++ "" = s.
Proof. induction s as [| c s IH]; simpl; [reflexivity | rewrite IH; reflexivity]. Qed.

Lemma append_assoc (a b c : string) : (a ++ b) ++ c = a ++ (b ++ c).
Proof. induction a as [| x a IH]; simpl; [reflexivity | rewrite IH; reflexivity]. Qed.

Lemma length_append (a b : string) : length (a ++ b) = (length a + length b)%nat.
Proof. induction a as [| x a IH]; simpl; [reflexivity | rewrite IH; reflexivity]. Qed.

Lemma substring_prefix (a b : string) : substring 0 (length a) (a ++ b) = a.
Proof.
  induction a as [| x a IH]; simpl.
  - destruct b; reflexivity.
  - rewrite IH. reflexivity.
Qed.

(** What [copy] with an [ostream_iterator] leaves in the stream. *)
Lemma copy_to_stream_flatten {A : Type} (show : A -> string) (delim : string) :
  forall v ss,
    Stream.copy_to_stream show delim v ss
    = ss ++ flatten (map (fun a => show a ++ delim) v).
Proof.
  induction v as [| a rest IH]; intros ss; cbn [Stream.copy_to_stream map flatten fold_right].
  - rewrite append_nil_r. reflexivity.
  - rewrite IH. fold (flatten (map (fun a0 => show a0 ++ delim) rest)).
    rewrite !append_assoc. reflexivity.
Qed.

(** Entries that are each followed by the delimiter are the entries joined
    by the delimiter, followed by one more delimiter. *)
Lemma flatten_delimited {A : Type} (show : A -> string) (delim : string) :
  forall rest a,
    flatten (map (fun a => show a ++ delim) (a :: rest))
    = concat delim (map show (a :: rest)) ++ delim.
Proof.
  induction rest as [| b rest IH]; intros a.
  - cbn [map flatten fold_right concat]. rewrite append_nil_r. reflexivity.
  - specialize (IH b). cbn [map flatten fold_right concat] in *.
    rewrite IH. rewrite !append_assoc. reflexivity.
Qed.

(** Removing the last character of a string that ends in a blank. *)
Lemma substr_strip (j : string) :
  Stream.substr (j ++ blank) 0
    (Stream.size_minus_one (N.of_nat (length (j ++ blank))))
  = Some j.
Proof.
  unfold Stream.substr, Stream.size_minus_one.
  rewrite length_append. change (length blank) with 1%nat.
  replace (N.of_nat (length j + 1) =? 0)%N with false
    by (symmetry; apply N.eqb_neq; lia).
  replace (N.of_nat (length j + 1) <? 0)%N with false
    by (symmetry; apply N.ltb_ge; lia).
  replace (N.to_nat (N.min (N.of_nat (length j + 1) - 1)
                       (N.of_nat (length j + 1) - 0)))
    with (length j) by lia.
  change (N.to_nat 0) with 0%nat. rewrite substring_prefix. reflexivity.
Qed.

(** The rendering shared by the three accessors. *)
Lemma render_joins {A : Type} (show : A -> string) (v : list A) :
  Stream.substr (Stream.copy_to_stream show blank v "") 0
    (Stream.size_minus_one
       (N.of_nat (length (Stream.copy_to_stream show blank v ""))))
  = Some (concat blank (map show v)).
Proof.
  rewrite copy_to_stream_flatten. destruct v as [| a rest].
  - reflexivity.
  - rewrite flatten_delimited. cbn [append]. apply substr_strip.
Qed.

(** X14: [getAssociations] never raises; it returns the decimal numerals
    of the association ids in order, separated by single blanks, with no
    blank at the end, and the empty string for a particle without
    associations. *)
Theorem getAssociations_joins :
  forall best,
    Rev2.getAssociations best
    = Some (concat blank (map Stream.show_int (p_associations best))).
Proof. intros best. apply render_joins. Qed.

(** X15: [getSenseX] and [getSenseY] never raise; each returns the
    renderings of the coordinates in order, separated by single blanks,
    with no blank at the end, and the empty string for an empty vector. *)
Theorem getSense_joins :
  forall show_float best,
    Rev2.getSenseX show_float best
    = Some (concat blank (map show_float (p_sense_x best)))
    /\ Rev2.getSenseY show_float best
       = Some (concat blank (map show_float (p_sense_y best))).
Proof. intros show_float best. split; apply render_joins. Qed.

(** X16: what [SetAssociations] stores is what the accessors render: the
    vectors the particle held before are discarded, and id, pose and
    weight are kept. *)
Theorem SetAssociations_then_get :
  forall show_float particle associations sense_x sense_y,
    let particle' :=
      Rev2.SetAssociations particle associations sense_x sense_y in
    Rev2.getAssociations particle'
    = Some (concat blank (map Stream.show_int associations))
    /\ Rev2.getSenseX show_float particle'
       = Some (concat blank (map show_float sense_x))
    /\ Rev2.getSenseY show_float particle'
       = Some (concat blank (map show_float sense_y))
    /\ p_id particle' = p_id particle
    /\ p_x particle' = p_x particle /\ p_y particle' = p_y particle
    /\ p_theta particle' = p_theta particle
    /\ p_weight particle' = p_weight particle.
Proof.
  intros show_float particle associations sense_x sense_y particle'.
  split; [apply render_joins |]. split; [apply render_joins |].
  split; [apply render_joins |]. repeat split.
Qed.

(** ** Writing the particles to a file *)

Lemma skipn_nth_error {A : Type} :
  forall (l : list A) i a,
    nth_error l i = Some a -> skipn i l = a :: skipn (S i) l.
Proof.
  induction l as [| x l IH]; intros [| i] a H; cbn [nth_error] in H;
    try discriminate H.
  - injection H as <-. reflexivity.
  - cbn [skipn]. rewrite (IH i a H). reflexivity.
Qed.

Lemma nth_error_in_bounds {A : Type} (l : list A) (i : nat) :
  (i < List.length l)%nat -> exists a, nth_error l i = Some a.
Proof.
  intros H. destruct (nth_error l i) as [a |] eqn:E; [exists a; reflexivity |].
  apply nth_error_None in E. lia.
Qed.

Lemma store_same fs filename content :
  Stream.store fs filename content filename = content.
Proof. unfold Stream.store. rewrite eqb_refl. reflexivity. Qed.

Lemma store_other fs filename content name :
  name <> filename -> Stream.store fs filename content name = fs name.
Proof.
  intros H. unfold Stream.store. apply eqb_neq in H. rewrite H. reflexivity.
Qed.

(** The loop of the first revision appends one record, line feed
    included, per particle. *)
Lemma write_loop_rev1 (show : R -> string) (ps : list Particle) :
  forall count i dataFile,
    (i + count <= List.length ps)%nat ->
    Rev1.write_loop show ps i count dataFile
    = Some (dataFile
            ++ flatten (map (record_rev1 show) (firstn count (skipn i ps)))).
Proof.
  induction count as [| count IH]; intros i dataFile H;
    cbn [Rev1.write_loop firstn map flatten fold_right].
  - rewrite append_nil_r. reflexivity.
  - destruct (nth_error_in_bounds ps i) as [p Hp]; [lia |].
    rewrite Hp. cbn [bind]. rewrite IH by lia.
    rewrite (skipn_nth_error ps i p Hp).
    cbn [firstn map flatten fold_right]. rewrite append_assoc. reflexivity.
Qed.

(** The loop of the second revision writes the records with a line feed
    between them and none after the last one. *)
Lemma write_loop_rev2 (show : R -> string) (ps : list Particle) :
  forall count i dataFile,
    (i + count <= List.length ps)%nat ->
    Rev2.write_loop show (Z.of_nat (i + count)) ps i count dataFile
    = Some (dataFile
            ++ concat Stream.newline
                 (map (record_rev2 show) (firstn count (skipn i ps)))).
Proof.
  induction count as [| count IH]; intros i dataFile H.
  - cbn [Rev2.write_loop firstn map concat]. rewrite append_nil_r.
    reflexivity.
  - cbn [Rev2.write_loop].
    destruct (nth_error_in_bounds ps i) as [p Hp]; [lia |].
    rewrite Hp. cbn [bind]. rewrite (skipn_nth_error ps i p Hp).
    replace (i + S count)%nat with (S i + count)%nat by lia.
    destruct count as [| count].
    + replace (Z.of_nat i =? Z.of_nat (S i + 0) - 1)%Z with true
        by (symmetry; apply Z.eqb_eq; lia).
      cbn [Rev2.write_loop firstn map concat]. reflexivity.
    + replace (Z.of_nat i =? Z.of_nat (S i + S count) - 1)%Z with false
        by (symmetry; apply Z.eqb_neq; lia).
      rewrite IH by lia.
      destruct (nth_error_in_bounds ps (S i)) as [q Hq]; [lia |].
      rewrite (skipn_nth_error ps (S i) q Hq).
      cbn [firstn map concat]. unfold record_rev2.
      rewrite !append_assoc. reflexivity.
Qed.

(** X17: for a filter that holds [num_particles] particles, [write] of
    the first revision is defined and appends to what the file held (a
    missing file counts as empty) one record [x y theta] with a line feed
    per particle, in order; all other files stay as they are. *)
Theorem write_rev1_appends :
  forall show filename pf fs,
    count_ok pf ->
    exists fs',
      Rev1.write show filename pf fs = Some fs'
      /\ fs' filename
         = Some (opened_content fs filename
                 ++ flatten (map (record_rev1 show) (particles pf)))
      /\ forall name, name <> filename -> fs' name = fs name.
Proof.
  intros show filename pf fs Hc. unfold count_ok in Hc. unfold Rev1.write.
  rewrite write_loop_rev1 by lia. cbn [bind skipn].
  replace (Z.to_nat (num_particles pf)) with (List.length (particles pf))
    by lia.
  rewrite firstn_all. eexists. split; [reflexivity |]. split.
  - rewrite store_same. reflexivity.
  - intros name Hn. apply store_other. exact Hn.
Qed.

Lemma write_rev1_appends_witness :
  exists fs',
    Rev1.write (fun _ => "r") "out" (sample_filter [1; 2])
      (fun _ => Some "old") = Some fs'
    /\ fs' "out"
       = Some (opened_content (fun _ => Some "old") "out"
               ++ flatten (map (record_rev1 (fun _ => "r"))
                             (particles (sample_filter [1; 2]))))
    /\ forall name, name <> "out" -> fs' name = Some "old".
Proof.
  exact (write_rev1_appends (fun _ => "r") "out" (sample_filter [1; 2])
           (fun _ => Some "old") eq_refl).
Defined.

(** X18: for a filter that holds [num_particles] particles, [write] of
    the second revision is defined and replaces the file, whatever it
    held, by one record [x,y,theta] per particle, in order, with a line
    feed between records and none at the end; all other files stay as
    they are. *)
Theorem write_rev2_replaces :
  forall show filename pf fs,
    count_ok pf ->
    exists fs',
      Rev2.write show filename pf fs = Some fs'
      /\ fs' filename
         = Some (concat Stream.newline
                   (map (record_rev2 show) (particles pf)))
      /\ forall name, name <> filename -> fs' name = fs name.
Proof.
  intros show filename pf fs Hc. unfold count_ok in Hc. unfold Rev2.write.
  rewrite store_same. cbv beta iota zeta.
  pose proof (write_loop_rev2 show (particles pf)
                (Z.to_nat (num_particles pf)) 0 "") as L.
  replace (Z.of_nat (0 + Z.to_nat (num_particles pf)))
    with (num_particles pf) in L by lia.
  rewrite L by lia. cbn [bind skipn append].
  replace (Z.to_nat (num_particles pf)) with (List.length (particles pf))
    by lia.
  rewrite firstn_all. eexists. split; [reflexivity |]. split.
  - rewrite store_same. reflexivity.
  - intros name Hn. rewrite !store_other by exact Hn. reflexivity.
Qed.

Lemma write_rev2_replaces_witness :
  exists fs',
    Rev2.write (fun _ => "r") "out" (sample_filter [1; 2])
      (fun _ => Some "old") = Some fs'
    /\ fs' "out"
       = Some (concat Stream.newline
                 (map (record_rev2 (fun _ => "r"))
                    (particles (sample_filter [1; 2]))))
    /\ forall name, name <> "out" -> fs' name = Some "old".
Proof.
  exact (write_rev2_replaces (fun _ => "r") "out" (sample_filter [1; 2])
           (fun _ => Some "old") eq_refl).
Defined.

End TextFacts.

(** ** The weight update and the prior weights *)

(** X19: with an empty observation list [updateWeights] is defined for
    every map, also an empty one; the first revision returns the filter
    unchanged, weights included, and the second revision sets every weight
    to 1 and changes nothing else. *)
Theorem updateWeights_no_observations :
  forall sensor_range std_landmark map_landmarks pf,
    Rev1.updateWeights sensor_range std_landmark [] map_landmarks pf = Some pf
    /\ Rev2.updateWeights sensor_range std_landmark [] map_landmarks pf
       = Some (mkFilter (num_particles pf) (is_initialized pf)
                 (map (fun p => set_weight p 1) (particles pf))).
Proof.
  intros sensor_range std_landmark map_landmarks pf. split.
  - rewrite updateWeights_rev1_no_observations. destruct pf. reflexivity.
  - apply updateWeights_rev2_no_observations.
Qed.

(** X20: second revision: two filters that differ only in the weights of
    their particles leave [updateWeights] in the same state, defined or
    not. *)
Theorem updateWeights_rev2_forgets_weights :
  forall sensor_range std_landmark observations map_landmarks pf pf',
    num_particles pf' = num_particles pf ->
    is_initialized pf' = is_initialized pf ->
    Forall2 (fun p p' => exists w, p' = set_weight p w)
      (particles pf) (particles pf') ->
    Rev2.updateWeights sensor_range std_landmark observations map_landmarks pf'
    = Rev2.updateWeights sensor_range std_landmark observations map_landmarks
        pf.
Proof.
  intros sensor_range std_landmark observations map_landmarks pf pf' Hn Hi HF.
  unfold Rev2.updateWeights.
  rewrite (updateWeights_loop_rev2_ignores_weights _ _ _ _ _ _ HF), Hn, Hi.
  reflexivity.
Qed.

Lemma updateWeights_rev2_forgets_weights_witness :
  Rev2.updateWeights 1 (1, 1) [origin_obs] origin_map (sample_filter [2])
  = Rev2.updateWeights 1 (1, 1) [origin_obs] origin_map (sample_filter [1]).
Proof.
  refine (updateWeights_rev2_forgets_weights 1 (1, 1) [origin_obs] origin_map
            (sample_filter [1]) (sample_filter [2]) eq_refl eq_refl _).
  constructor; [| constructor]. exists 2. reflexivity.
Defined.

Lemma updateWeights_obs_rev1_scales sensor_range std_landmark map_landmarks p :
  forall observations w q,
    Rev1.updateWeights_obs sensor_range std_landmark observations
      map_landmarks (set_weight p w) = Some q ->
    forall k,
      Rev1.updateWeights_obs sensor_range std_landmark observations
        map_landmarks (set_weight p (k * w))
      = Some (set_weight p (k * p_weight q)).
Proof.
  induction observations as [| o rest IH]; intros w q H k;
    cbn [Rev1.updateWeights_obs] in *.
  - injection H as <-. reflexivity.
  - change (Rev1.convertVehicleToMapCoords o (set_weight p (k * w)))
      with (Rev1.convertVehicleToMapCoords o p).
    change (Rev1.convertVehicleToMapCoords o (set_weight p w))
      with (Rev1.convertVehicleToMapCoords o p) in H.
    destruct (nth_error (landmark_list map_landmarks) _) as [lm |];
      [| discriminate H].
    cbn [bind] in *.
    change (set_weight (set_weight p w)
              (p_weight (set_weight p w)
               * multi_gaussian_term (fst std_landmark) (snd std_landmark)
                   (x_f lm - obs_x (Rev1.convertVehicleToMapCoords o p))
                   (y_f lm - obs_y (Rev1.convertVehicleToMapCoords o p))))
      with (set_weight p
              (w * multi_gaussian_term (fst std_landmark) (snd std_landmark)
                     (x_f lm - obs_x (Rev1.convertVehicleToMapCoords o p))
                     (y_f lm - obs_y (Rev1.convertVehicleToMapCoords o p))))
      in H.
    change (set_weight (set_weight p (k * w))
              (p_weight (set_weight p (k * w))
               * multi_gaussian_term (fst std_landmark) (snd std_landmark)
                   (x_f lm - obs_x (Rev1.convertVehicleToMapCoords o p))
                   (y_f lm - obs_y (Rev1.convertVehicleToMapCoords o p))))
      with (set_weight p
              (k * w
               * multi_gaussian_term (fst std_landmark) (snd std_landmark)
                   (x_f lm - obs_x (Rev1.convertVehicleToMapCoords o p))
                   (y_f lm - obs_y (Rev1.convertVehicleToMapCoords o p)))).
    rewrite Rmult_assoc. apply IH. exact H.
Qed.

(** X21: first revision: the weight a particle gets is proportional to the
    weight it had: if the update gives the particle with prior weight 1
    the weight [c], it gives the same particle with prior weight [w] the
    weight [w * c], and is undefined for the one exactly when it is for
    the other. *)
Theorem updateWeights_rev1_scales_prior_weight :
  forall sensor_range std_landmark observations map_landmarks p w,
    Rev1.updateWeights_obs sensor_range std_landmark observations
      map_landmarks (set_weight p w)
    = match Rev1.updateWeights_obs sensor_range std_landmark observations
              map_landmarks (set_weight p 1) with
      | Some q => Some (set_weight p (w * p_weight q))
      | None => None
      end.
Proof.
  intros sensor_range std_landmark observations map_landmarks p w.
  destruct (Rev1.updateWeights_obs sensor_range std_landmark observations
              map_landmarks (set_weight p 1)) as [q |] eqn:E.
  - rewrite <- (Rmult_1_r w) at 1.
    exact (updateWeights_obs_rev1_scales _ _ _ _ _ _ _ E w).
  - revert E. generalize 1 at 1. generalize w.
    induction observations as [| o rest IH]; intros w1 w2 E;
      cbn [Rev1.updateWeights_obs] in *; [discriminate E |].
    change (Rev1.convertVehicleToMapCoords o (set_weight p w1))
      with (Rev1.convertVehicleToMapCoords o p).
    change (Rev1.convertVehicleToMapCoords o (set_weight p w2))
      with (Rev1.convertVehicleToMapCoords o p) in E.
    destruct (nth_error (landmark_list map_landmarks) _) as [lm |];
      [| reflexivity].
    cbn [bind] in *.
    exact (IH _ _ E).
Qed.
